(** * The membership engine of [solution/member.py] (class [GroupMember])

    A shallow embedding of the per-process SWIM-style membership engine:
    the add/remove registers with their generation counter, the CRDT merge
    of gossip samples, the derived active set, the suspicion timers and the
    message handlers.

    Modelling conventions.
    - Python [int] is [Z]; a [dict] keyed by process id is a [gmap string _];
      a [set] of process ids is a [gset string].
    - A [float] that is only stored and compared (audit timestamps, timer
      delays) is a rational [Q]; NaN and infinities are not represented.
    - Every callback is a function from the engine state and its inputs to
      the new state and the list of runtime calls ([ctx.send],
      [ctx.send_local], [ctx.set_timer], [ctx.cancel_timer]) in the order in
      which they are issued.
    - [ctx.time()], the draws of the [random] module and the iteration order
      of a Python [set] are inputs of the callback, gathered in [Context]. *)

From Stdlib Require Import ZArith QArith Lia.
From Stdlib Require String.
From stdpp Require Import base option list gmap strings fin_maps fin_sets.

Local Open Scope Z_scope.

(** ** Data model *)

(** [Tuple[float, int]]: audit timestamp and generation. *)
Abbreviation Tag := (Q * Z)%type.

(** [a > b] on floats. *)
Definition float_gt (a b : Q) : bool := negb (Qle_bool a b).

(** One value of a wire sample: the dict [{'timestamp': ts, 'generation': gen}];
    either key can be missing, [data.get(key, 0)] then gives [0]. *)
Record SampleEntry : Type := mkSampleEntry {
  timestamp : option Q;
  generation : option Z
}.

(** A [Message]: its [type] and the fields of its data dict that this
    program reads or writes.  A field that is [None] is a missing key:
    [msg[key]] raises [KeyError] there. *)
Record Message : Type := mkMessage {
  msg_type : string;
  msg_seed : option string;
  msg_added : option (gmap string SampleEntry);
  msg_removed : option (gmap string SampleEntry);
  msg_time : option Z;
  msg_target : option string;
  msg_members : option (list string)
}.

(** The calls on the runtime [Context]. *)
Inductive Action : Type :=
  | send (msg : Message) (dest : string)
  | send_local (msg : Message)
  | set_timer (name : string) (delay : Q)
  | cancel_timer (name : string).

(** The inputs a callback reads from its environment: [ctx.time()], the raw
    draws of the [random] module in the order they are consumed, and the
    draws that fix the order in which a [set] is iterated. *)
Record Context : Type := mkContext {
  time : Q;
  random : list nat;
  set_order : list nat
}.

(** The attributes of a [GroupMember] ([T], [S], [K] and [SAMPLE_SIZE] are
    never assigned after [__init__] and are constants below). *)
Record GroupMember : Type := mkGroupMember {
  _id : string;
  _joined : bool;
  _time : Z;
  _added_members : gmap string Tag;
  _removed_members : gmap string Tag;
  _waiting_answer : gmap string Z;
  _active : gset string;
  _generation : Z
}.

(** The tunable parameters; kept in a module of their own because [S] is
    also the successor of [nat]. *)
Module Params.
Definition T : Q := 5.
Definition S : Z := 3.
Definition K : nat := 2.
Definition SAMPLE_SIZE : nat := 20.
End Params.

Definition __init__ (proc_id : string) : GroupMember :=
  {| _id := proc_id; _joined := false; _time := 0;
     _added_members := ∅; _removed_members := ∅; _waiting_answer := ∅;
     _active := ∅; _generation := 0 |}.

(** ** Register store *)

Definition _mark_added (self : GroupMember) (proc_id : string) (ts : Q)
  : GroupMember :=
  let generation' := _generation self + 1 in
  let added' := <[proc_id := (ts, generation')]> (_added_members self) in
  let removed' :=
    match _removed_members self !! proc_id with
    | Some removed_entry =>
        if float_gt ts removed_entry.1
        then delete proc_id (_removed_members self)
        else _removed_members self
    | None => _removed_members self
    end in
  {| _id := _id self; _joined := _joined self;
     _time := Z.max (_time self) generation';
     _added_members := added'; _removed_members := removed';
     _waiting_answer := _waiting_answer self;
     _active := {[proc_id]} ∪ _active self;
     _generation := generation' |}.

Definition _mark_removed (self : GroupMember) (proc_id : string) (ts : Q)
  : GroupMember :=
  let generation' := _generation self + 1 in
  let removed' := <[proc_id := (ts, generation')]> (_removed_members self) in
  let added' :=
    match _added_members self !! proc_id with
    | Some added_entry =>
        if generation' >? added_entry.2
        then delete proc_id (_added_members self)
        else _added_members self
    | None => _added_members self
    end in
  {| _id := _id self; _joined := _joined self;
     _time := Z.max (_time self) generation';
     _added_members := added'; _removed_members := removed';
     _waiting_answer := _waiting_answer self;
     _active := _active self ∖ {[proc_id]};
     _generation := generation' |}.

(** ** Active-set view *)

(** The body of the loop of [_get_active_members] for one key of
    [_added_members]. *)
Definition active_step (removed : gmap string Tag)
    (proc_id : string) (added_entry : Tag) (active : gset string)
  : gset string :=
  match removed !! proc_id with
  | None => {[proc_id]} ∪ active
  | Some removed_entry =>
      let added_gen := added_entry.2 in
      let removed_gen := removed_entry.2 in
      if added_gen >? removed_gen then {[proc_id]} ∪ active else active
  end.

Definition _get_active_members (self : GroupMember) : gset string :=
  map_fold (active_step (_removed_members self)) ∅ (_added_members self).

(** ** Randomness and set iteration *)

(** The next raw draw; an exhausted source keeps giving [0]. *)
Definition draw (rnd : list nat) : nat * list nat :=
  match rnd with
  | [] => (0%nat, [])
  | n :: rnd' => (n, rnd')
  end.

(** [random.choice(seq)] on a non-empty [seq] ([d] is never returned
    there). *)
Definition random_choice {A} (rnd : list nat) (seq : list A) (d : A)
  : A * list nat :=
  let '(n, rnd') := draw rnd in
  (nth (n mod length seq) seq d, rnd').

(** [random.sample(population, k)]: [k] elements at distinct positions,
    drawn one after the other without replacement. *)
Fixpoint random_sample {A} (rnd : list nat) (population : list A) (k : nat)
  : list A * list nat :=
  match k, population with
  | O, _ => ([], rnd)
  | _, [] => ([], rnd)
  | Datatypes.S k', x :: _ =>
      let '(n, rnd1) := draw rnd in
      let i := (n mod length population)%nat in
      let '(rest, rnd2) := random_sample rnd1 (delete i population) k' in
      (nth i population x :: rest, rnd2)
  end.

(** [for p in s] on a Python [set]: the members of [s], each once, in an
    order the program does not control. *)
Definition set_iter (order : list nat) (s : gset string) : list string :=
  (random_sample order (elements s) (size s)).1.

(** ** Sampler / serializer *)

Definition serialize_item (d : gmap string SampleEntry)
    (item : string * Tag) : gmap string SampleEntry :=
  let '(proc_id, (ts, gen)) := item in
  <[proc_id := {| timestamp := Some ts; generation := Some gen |}]> d.

Definition _serialize_sample (rnd : list nat) (data_dict : gmap string Tag)
  : gmap string SampleEntry * list nat :=
  let items := map_to_list data_dict in
  let sample_size := Nat.min Params.SAMPLE_SIZE (length items) in
  let '(sampled, rnd') :=
    if (0 <? sample_size)%nat then random_sample rnd items sample_size
    else ([], rnd) in
  (foldl serialize_item ∅ sampled, rnd').

(** ** CRDT merge *)

Definition set_registers (self : GroupMember)
    (added removed : gmap string Tag) : GroupMember :=
  {| _id := _id self; _joined := _joined self; _time := _time self;
     _added_members := added; _removed_members := removed;
     _waiting_answer := _waiting_answer self; _active := _active self;
     _generation := _generation self |}.

Definition set_time (self : GroupMember) (t : Z) : GroupMember :=
  {| _id := _id self; _joined := _joined self; _time := t;
     _added_members := _added_members self;
     _removed_members := _removed_members self;
     _waiting_answer := _waiting_answer self; _active := _active self;
     _generation := _generation self |}.

Definition set_active (self : GroupMember) (a : gset string) : GroupMember :=
  {| _id := _id self; _joined := _joined self; _time := _time self;
     _added_members := _added_members self;
     _removed_members := _removed_members self;
     _waiting_answer := _waiting_answer self; _active := a;
     _generation := _generation self |}.

Definition set_waiting_answer (self : GroupMember) (w : gmap string Z)
  : GroupMember :=
  {| _id := _id self; _joined := _joined self; _time := _time self;
     _added_members := _added_members self;
     _removed_members := _removed_members self;
     _waiting_answer := w; _active := _active self;
     _generation := _generation self |}.

Definition set_joined (self : GroupMember) (j : bool) : GroupMember :=
  {| _id := _id self; _joined := j; _time := _time self;
     _added_members := _added_members self;
     _removed_members := _removed_members self;
     _waiting_answer := _waiting_answer self; _active := _active self;
     _generation := _generation self |}.

(** The body of the first loop of [_merge_crdt_sample]. *)
Definition merge_added_item (proc_id : string) (data : SampleEntry)
    (self : GroupMember) : GroupMember :=
  let ts := default 0%Q (timestamp data) in
  let gen := default 0 (generation data) in
  let current_gen := (default (0%Q, -1) (_added_members self !! proc_id)).2 in
  if gen >? current_gen then
    let added' := <[proc_id := (ts, gen)]> (_added_members self) in
    match _removed_members self !! proc_id with
    | Some removed_entry =>
        if removed_entry.2 <? gen
        then set_registers self added' (delete proc_id (_removed_members self))
        else set_registers self added' (_removed_members self)
    | None => set_registers self added' (_removed_members self)
    end
  else self.

(** The body of the second loop of [_merge_crdt_sample]. *)
Definition merge_removed_item (proc_id : string) (data : SampleEntry)
    (self : GroupMember) : GroupMember :=
  let ts := default 0%Q (timestamp data) in
  let gen := default 0 (generation data) in
  let current_gen :=
    (default (0%Q, -1) (_removed_members self !! proc_id)).2 in
  if gen >? current_gen then
    let removed' := <[proc_id := (ts, gen)]> (_removed_members self) in
    match _added_members self !! proc_id with
    | Some added_entry =>
        if added_entry.2 <? gen
        then set_registers self (delete proc_id (_added_members self)) removed'
        else set_registers self (_added_members self) removed'
    | None => set_registers self (_added_members self) removed'
    end
  else self.

Definition _merge_crdt_sample (self : GroupMember)
    (added_sample removed_sample : gmap string SampleEntry) (time_value : Z)
  : GroupMember :=
  let self1 := set_time self (Z.max (_time self) time_value) in
  let self2 := map_fold merge_added_item self1 added_sample in
  let self3 := map_fold merge_removed_item self2 removed_sample in
  set_active self3 (_get_active_members self3).

(** ** Messages built by the engine *)

Definition PING (added removed : gmap string SampleEntry) (t : Z)
    (target : option string) : Message :=
  {| msg_type := "PING"; msg_seed := None;
     msg_added := Some added; msg_removed := Some removed;
     msg_time := Some t; msg_target := target; msg_members := None |}.

Definition PING_ANSWER (added removed : gmap string SampleEntry) (t : Z)
  : Message :=
  {| msg_type := "PING_ANSWER"; msg_seed := None;
     msg_added := Some added; msg_removed := Some removed;
     msg_time := Some t; msg_target := None; msg_members := None |}.

Definition MEMBERS (members : list string) : Message :=
  {| msg_type := "MEMBERS"; msg_seed := None;
     msg_added := None; msg_removed := None;
     msg_time := None; msg_target := None; msg_members := Some members |}.

(** The delay [self.T * self.S] of a suspicion timer. *)
Definition suspicion_delay : Q := (Params.T * inject_Z Params.S)%Q.

(** ** Join/leave glue *)

Definition _start_periodic_ping : list Action :=
  [set_timer "periodic_ping" Params.T].

Definition _create_group (self : GroupMember) (ctx : Context)
  : GroupMember * list Action :=
  let self1 := set_joined self true in
  let self2 := _mark_added self1 (_id self1) (time ctx) in
  let self3 := set_active self2 ({[_id self2]} ∪ _active self2) in
  (self3, _start_periodic_ping).

(** The loop [for _ in range(self.K)] of [_join_group]: every round builds
    its message from fresh samples. *)
Fixpoint bootstrap_pings (self : GroupMember) (seed : string)
    (rounds : nat) (rnd : list nat) : list Action :=
  match rounds with
  | O => []
  | Datatypes.S rounds' =>
      let '(added, rnd1) := _serialize_sample rnd (_added_members self) in
      let '(removed, rnd2) := _serialize_sample rnd1 (_removed_members self) in
      send (PING added removed (_time self) None) seed
        :: bootstrap_pings self seed rounds' rnd2
  end.

Definition _join_group (self : GroupMember) (seed : string) (ctx : Context)
  : GroupMember * list Action :=
  if _joined self then (self, [])
  else
    let self1 := set_joined self true in
    let self2 := _mark_added self1 (_id self1) (-1)%Q in
    let self3 := set_active self2 ({[_id self2]} ∪ _active self2) in
    (self3,
     bootstrap_pings self3 seed Params.K (random ctx) ++ _start_periodic_ping).

Definition _leave_group (self : GroupMember) (ctx : Context)
  : GroupMember * list Action :=
  if negb (_joined self) then (self, [])
  else
    let self1 := set_joined self false in
    let self2 := _mark_removed self1 (_id self1) (time ctx) in
    let self3 := set_active self2 (_active self2 ∖ {[_id self2]}) in
    (self3, [cancel_timer "periodic_ping"]).

(** ** Probe scheduler and suspicion timers *)

Definition _periodic_ping (self : GroupMember) (ctx : Context)
  : GroupMember * list Action :=
  if negb (_joined self) || bool_decide (_active self = ∅)
  then (self, [set_timer "periodic_ping" Params.T])
  else
    let candidates :=
      filter (λ p, p ≠ _id self) (set_iter (set_order ctx) (_active self)) in
    match candidates with
    | [] => (self, [set_timer "periodic_ping" Params.T])
    | c :: _ =>
        let '(target, rnd1) := random_choice (random ctx) candidates c in
        let self1 :=
          set_waiting_answer self (<[target := 1]> (_waiting_answer self)) in
        let '(added, rnd2) := _serialize_sample rnd1 (_added_members self1) in
        let '(removed, _) := _serialize_sample rnd2 (_removed_members self1) in
        (self1,
         [send (PING added removed (_time self1) None) target;
          set_timer ("ping_" +:+ target) suspicion_delay;
          set_timer "periodic_ping" Params.T])
    end.

Definition _ping_with_retransmitters (self : GroupMember) (target : string)
    (ctx : Context) : list Action :=
  let candidates :=
    filter (λ p, p ≠ _id self ∧ p ≠ target)
           (set_iter (set_order ctx) (_active self)) in
  let retransmitters := take (Nat.min Params.K (length candidates)) candidates in
  let '(added, rnd1) := _serialize_sample (random ctx) (_added_members self) in
  let '(removed, _) := _serialize_sample rnd1 (_removed_members self) in
  let msg := PING added removed (_time self) (Some target) in
  map (λ retransmitter, send msg retransmitter) retransmitters.

Definition on_timer (self : GroupMember) (timer_name : string) (ctx : Context)
  : GroupMember * list Action :=
  if String.prefix "ping_" timer_name then
    let target := String.substring 5 (String.length timer_name - 5) timer_name in
    let status := default 0 (_waiting_answer self !! target) in
    if status =? 1 then
      let self1 :=
        set_waiting_answer self (<[target := 2]> (_waiting_answer self)) in
      (self1,
       _ping_with_retransmitters self1 target ctx
         ++ [set_timer timer_name suspicion_delay])
    else if status =? 2 then
      let self1 := _mark_removed self target (time ctx) in
      (set_waiting_answer self1 (delete target (_waiting_answer self1)), [])
    else (self, [])
  else if bool_decide (timer_name = "periodic_ping") then _periodic_ping self ctx
  else (self, []).

(** ** Message handlers *)

Definition _on_ping (self : GroupMember) (msg : Message) (sender : string)
    (ctx : Context) : GroupMember * list Action :=
  let added_data := default ∅ (msg_added msg) in
  let removed_data := default ∅ (msg_removed msg) in
  let time_value := default 0 (msg_time msg) in
  let self1 := _merge_crdt_sample self added_data removed_data time_value in
  let relay :=
    match msg_target msg with
    | Some target => if bool_decide (target ≠ _id self1) then Some target else None
    | None => None
    end in
  match relay with
  | Some target => (self1, [send msg target])
  | None =>
      let self2 :=
        match _added_members self1 !! sender with
        | None => _mark_added self1 sender (time ctx)
        | Some _ =>
            match _removed_members self1 !! sender with
            | Some removed_entry =>
                let added_gen :=
                  (default (0%Q, -1) (_added_members self1 !! sender)).2 in
                let removed_gen := removed_entry.2 in
                let self' :=
                  if removed_gen >=? added_gen
                  then _mark_added self1 sender (time ctx)
                  else self1 in
                set_active self' ({[sender]} ∪ _active self')
            | None => self1
            end
        end in
      let '(added, rnd1) :=
        _serialize_sample (random ctx) (_added_members self2) in
      let '(removed, _) := _serialize_sample rnd1 (_removed_members self2) in
      (self2, [send (PING_ANSWER added removed (_time self2)) sender])
  end.

Definition _on_ping_answer (self : GroupMember) (msg : Message)
    (sender : string) (ctx : Context) : GroupMember * list Action :=
  let added_data := default ∅ (msg_added msg) in
  let removed_data := default ∅ (msg_removed msg) in
  let time_value := default 0 (msg_time msg) in
  let self1 := _merge_crdt_sample self added_data removed_data time_value in
  let '(self2, actions) :=
    if default 0 (_waiting_answer self1 !! sender) >? 0
    then (set_waiting_answer self1 (<[sender := 0]> (_waiting_answer self1)),
          [cancel_timer ("ping_" +:+ sender)])
    else (self1, []) in
  let self3 :=
    match _added_members self2 !! sender with
    | None => _mark_added self2 sender (time ctx)
    | Some _ => self2
    end in
  (set_active self3 ({[sender]} ∪ _active self3), actions).

(** ** Entry points *)

(** [None] is the [KeyError] of [msg['seed']] on a JOIN without seed. *)
Definition on_local_message (self : GroupMember) (msg : Message)
    (ctx : Context) : option (GroupMember * list Action) :=
  if bool_decide (msg_type msg = "JOIN") then
    match msg_seed msg with
    | None => None
    | Some seed =>
        if bool_decide (seed = _id self)
        then Some (_create_group self ctx)
        else Some (_join_group self seed ctx)
    end
  else if bool_decide (msg_type msg = "LEAVE") then
    Some (_leave_group self ctx)
  else if bool_decide (msg_type msg = "GET_MEMBERS") then
    let members := set_iter (set_order ctx) (_get_active_members self) in
    Some (self, [send_local (MEMBERS members)])
  else Some (self, []).

Definition on_message (self : GroupMember) (msg : Message) (sender : string)
    (ctx : Context) : GroupMember * list Action :=
  if bool_decide (msg_type msg = "PING") then _on_ping self msg sender ctx
  else if bool_decide (msg_type msg = "PING_ANSWER")
  then _on_ping_answer self msg sender ctx
  else (self, []).

(** ** Runs of the engine *)

Inductive Event : Type :=
  | LocalMessage (msg : Message) (ctx : Context)
  | NetMessage (msg : Message) (sender : string) (ctx : Context)
  | TimerFired (timer_name : string) (ctx : Context).

(** One callback; [None] when it raises. *)
Definition deliver (self : GroupMember) (ev : Event)
  : option (GroupMember * list Action) :=
  match ev with
  | LocalMessage msg ctx => on_local_message self msg ctx
  | NetMessage msg sender ctx => Some (on_message self msg sender ctx)
  | TimerFired timer_name ctx => Some (on_timer self timer_name ctx)
  end.

(** The state after a sequence of callbacks none of which raises. *)
Fixpoint run (self : GroupMember) (evs : list Event) : option GroupMember :=
  match evs with
  | [] => Some self
  | ev :: evs' =>
      match deliver self ev with
      | Some (self', _) => run self' evs'
      | None => None
      end
  end.

(** The states an engine created as [GroupMember(proc_id)] can be in. *)
Definition reachable (proc_id : string) (self : GroupMember) : Prop :=
  ∃ evs, run (__init__ proc_id) evs = Some self.

(** * Vocabulary of the statements *)

(** ** Key-wise view of the registers *)

(** Whether a key with the given [added] and [removed] entries is active. *)
Definition active_key (a r : option Tag) : bool :=
  match a, r with
  | None, _ => false
  | Some _, None => true
  | Some added_entry, Some removed_entry => added_entry.2 >? removed_entry.2
  end.

(** The entries of one key in both registers. *)
Definition key_state (self : GroupMember) (p : string)
  : option Tag * option Tag :=
  (_added_members self !! p, _removed_members self !! p).

(** The tag a sample entry is merged as: [data.get('timestamp', 0)] and
    [data.get('generation', 0)]. *)
Definition entry_tag (data : SampleEntry) : Tag :=
  (default 0%Q (timestamp data), default 0 (generation data)).

(** What the first loop of the merge does to the entries of a key for which
    the added sample holds the tag [e]. *)
Definition merge_added_key (e : option Tag)
    (ar : option Tag * option Tag) : option Tag * option Tag :=
  match e with
  | None => ar
  | Some (ts, gen) =>
      if gen >? (default (0%Q, -1) ar.1).2 then
        (Some (ts, gen),
         match ar.2 with
         | Some removed_entry =>
             if removed_entry.2 <? gen then None else Some removed_entry
         | None => None
         end)
      else ar
  end.

(** The same for the second loop and the removed sample. *)
Definition merge_removed_key (e : option Tag)
    (ar : option Tag * option Tag) : option Tag * option Tag :=
  match e with
  | None => ar
  | Some (ts, gen) =>
      if gen >? (default (0%Q, -1) ar.2).2 then
        (match ar.1 with
         | Some added_entry =>
             if added_entry.2 <? gen then None else Some added_entry
         | None => None
         end,
         Some (ts, gen))
      else ar
  end.

(** The fields a merge loop leaves alone. *)
Definition same_frame (s s' : GroupMember) : Prop :=
  _id s' = _id s ∧ _joined s' = _joined s ∧ _time s' = _time s
  ∧ _waiting_answer s' = _waiting_answer s ∧ _active s' = _active s
  ∧ _generation s' = _generation s.

(** Both loops, one after the other. *)
Definition merge_key (ea er : option Tag)
    (ar : option Tag * option Tag) : option Tag * option Tag :=
  merge_removed_key er (merge_added_key ea ar).

(** The generation read from a register, [-1] when the key is absent: the
    [(0, -1)] default of the source. *)
Definition gen_of (t : option Tag) : Z := (default (0%Q, -1) t).2.

(** A register entry of non-negative generation, or none. *)
Definition tag_nonneg (t : option Tag) : Prop :=
  match t with Some entry => 0 ≤ entry.2 | None => True end.

Definition key_nonneg (ar : option Tag * option Tag) : Prop :=
  tag_nonneg ar.1 ∧ tag_nonneg ar.2.

(** [tracks ma mr ar]: the entries [ar] of a key agree with the largest
    added generation [ma] and the largest removed generation [mr] seen for
    it: the register of the winner holds its maximum, the other one holds
    at most its own. *)
Definition tracks (ma mr : Z) (ar : option Tag * option Tag) : Prop :=
  key_nonneg ar
  ∧ (mr < ma ∧ gen_of ar.1 = ma ∧ gen_of ar.2 ≤ mr
     ∨ ma ≤ mr ∧ gen_of ar.2 = mr ∧ gen_of ar.1 ≤ ma).

(** The generation a sample contributes for a key: [-1] when it does not
    name the key. *)
Definition sample_gen (e : option Tag) : Z := gen_of e.

(** The wire form [{'timestamp': ts, 'generation': gen}] of a tag. *)
Definition serialize_tag (t : Tag) : SampleEntry :=
  {| timestamp := Some t.1; generation := Some t.2 |}.

(** The local counter and all register generations are non-negative. *)
Definition gens_nonneg (self : GroupMember) : Prop :=
  0 ≤ _generation self ∧ ∀ p, key_nonneg (key_state self p).

(** ** Local commands and concrete runs *)

Definition local_command (type : string) (seed : option string) : Message :=
  {| msg_type := type; msg_seed := seed;
     msg_added := None; msg_removed := None;
     msg_time := None; msg_target := None; msg_members := None |}.

Definition JOIN (seed : string) : Message := local_command "JOIN" (Some seed).
Definition LEAVE : Message := local_command "LEAVE" None.
Definition GET_MEMBERS : Message := local_command "GET_MEMBERS" None.

(** A callback at wall-clock [t] that is given no random draws. *)
Definition ctx_at (t : Q) : Context :=
  {| time := t; random := []; set_order := [] |}.

(** A sample with one fully tagged entry. *)
Definition sample1 (p : string) (ts : Q) (gen : Z) : gmap string SampleEntry :=
  {[ p := {| timestamp := Some ts; generation := Some gen |} ]}.

(** An opposite entry survives unless the written entry dominates it. *)
Definition keep_unless (dominated : Tag → bool) (t : option Tag) : option Tag :=
  match t with
  | Some entry => if dominated entry then None else Some entry
  | None => None
  end.

(** Process "a" creates a group, leaves it and creates it again, all within
    one clock reading. *)
Definition rejoin_run : list Event :=
  [LocalMessage (JOIN "a") (ctx_at 1);
   LocalMessage LEAVE (ctx_at 1);
   LocalMessage (JOIN "a") (ctx_at 1)].

(** Process "a" creates a group and then hears, in the gossip of "b", of an
    [added] tag for itself that some peer issued at generation [100]. *)
Definition gossip_run : list Event :=
  [LocalMessage (JOIN "a") (ctx_at 1);
   NetMessage (PING_ANSWER (sample1 "a" 7 100) ∅ 100) "b" (ctx_at 2)].

(** The engine of "a" right after it created its group at time [1]. *)
Definition joined_a : GroupMember :=
  {| _id := "a"; _joined := true; _time := 1;
     _added_members := {[ "a" := (1%Q, 1) ]}; _removed_members := ∅;
     _waiting_answer := ∅; _active := {[ "a" ]}; _generation := 1 |}.

(** The same engine after a second [JOIN {seed: "a"}] at time [2]. *)
Definition rejoined_a : GroupMember :=
  {| _id := "a"; _joined := true; _time := 2;
     _added_members := {[ "a" := (2%Q, 2) ]}; _removed_members := ∅;
     _waiting_answer := ∅; _active := {[ "a" ]}; _generation := 2 |}.

(** A payload of the merge: added sample, removed sample, remote time. *)
Record Payload : Type := mkPayload {
  added_sample : gmap string SampleEntry;
  removed_sample : gmap string SampleEntry;
  time_value : Z
}.

(** [_merge_crdt_sample] applied to a payload. *)
Definition merge (x : Payload) (self : GroupMember) : GroupMember :=
  _merge_crdt_sample self (added_sample x) (removed_sample x) (time_value x).


(** "b" removed at generation 1. *)
Definition remove_b_payload : Payload :=
  {| added_sample := ∅; removed_sample := sample1 "b" 5 1; time_value := 1 |}.

(** "b" added at generation 2. *)
Definition add_b_payload : Payload :=
  {| added_sample := sample1 "b" 6 2; removed_sample := ∅; time_value := 2 |}.

(** The message with its [target] key removed. *)
Definition without_target (msg : Message) : Message :=
  {| msg_type := msg_type msg; msg_seed := msg_seed msg;
     msg_added := msg_added msg; msg_removed := msg_removed msg;
     msg_time := msg_time msg; msg_target := None;
     msg_members := msg_members msg |}.

(** The message with every missing gossip field filled in: an empty sample
    for [added] and [removed], zero for [time]. *)
Definition with_defaults (msg : Message) : Message :=
  {| msg_type := msg_type msg; msg_seed := msg_seed msg;
     msg_added := Some (default ∅ (msg_added msg));
     msg_removed := Some (default ∅ (msg_removed msg));
     msg_time := Some (default 0 (msg_time msg));
     msg_target := msg_target msg; msg_members := msg_members msg |}.

(** A message of the given type with no data at all. *)
Definition bare (type : string) : Message := local_command type None.

(** The engine of "a" while it awaits the direct answer of "c", with "b",
    "c" and "d" active. *)
Definition probing_a (status : Z) : GroupMember :=
  {| _id := "a"; _joined := true; _time := 4;
     _added_members :=
       {[ "a" := (1%Q, 1); "b" := (2%Q, 2); "c" := (3%Q, 3); "d" := (4%Q, 4) ]};
     _removed_members := ∅;
     _waiting_answer := {[ "c" := status ]};
     _active := {[ "a"; "b"; "c"; "d" ]}; _generation := 4 |}.

(** An indirect PING on behalf of a prober of "c". *)
Definition relayed_ping : Message := PING (sample1 "d" 4 4) ∅ 4 (Some "c").

(** A PING_ANSWER that carries no gossip. *)
Definition empty_answer : Message := PING_ANSWER ∅ ∅ 0.

(** A state no run produces: both entries of "b" at generation [-3]. *)
Definition negative_b : GroupMember :=
  {| _id := "a"; _joined := true; _time := 0;
     _added_members := {[ "b" := (0%Q, -3) ]};
     _removed_members := {[ "b" := (0%Q, -3) ]};
     _waiting_answer := ∅; _active := ∅; _generation := 0 |}.

Definition remove_b_minus2 : Payload :=
  {| added_sample := ∅; removed_sample := sample1 "b" 0 (-2); time_value := 0 |}.

Definition add_b_minus2 : Payload :=
  {| added_sample := sample1 "b" 0 (-2); removed_sample := ∅; time_value := 0 |}.

(** Whether an event is a timer firing. *)
Definition is_timer (ev : Event) : bool :=
  match ev with
  | TimerFired _ _ => true
  | _ => false
  end.

(** The loop of [_get_active_members] run over the items of
    [_added_members] in the order [items]. *)
Definition active_in_order (removed : gmap string Tag)
    (items : list (string * Tag)) : gset string :=
  foldl (λ active kv, active_step removed kv.1 kv.2 active) ∅ items.

(** Whether a runtime call arms the timer [timer_name]. *)
Definition arms (timer_name : string) (action : Action) : bool :=
  match action with
  | set_timer name _ => bool_decide (name = timer_name)
  | _ => false
  end.

(** Whether no callback of the run of [evs] from [self] arms the timer
    [timer_name].  The engine arms ping_<peer> when it starts a probe of
    the peer and when it escalates one; nothing else does. *)
Fixpoint never_arms (timer_name : string) (self : GroupMember)
    (evs : list Event) : bool :=
  match evs with
  | [] => true
  | ev :: evs' =>
      match deliver self ev with
      | Some (self', actions) =>
          negb (existsb (arms timer_name) actions)
          && never_arms timer_name self' evs'
      | None => true
      end
  end.

(** What the engine [probing_a 1] goes through after the answer of "c": a
    periodic ping that probes "b", the two firings of ping_b that first
    escalate and then remove the silent "b", a PING of "d", and a firing of
    the periodic timer that probes "d". *)
Definition later_events : list Event :=
  [TimerFired "periodic_ping"
     {| time := 8; random := [1]%nat; set_order := [] |};
   TimerFired "ping_b" (ctx_at 23);
   TimerFired "ping_b" (ctx_at 38);
   NetMessage (PING (sample1 "d" 4 4) ∅ 4 None) "d" (ctx_at 39);
   TimerFired "periodic_ping"
     {| time := 40; random := [1]%nat; set_order := [] |}].

(** The engine [probing_a 1] after the answer of "c" and [later_events]. *)
Definition after_later_events : GroupMember :=
  {| _id := "a"; _joined := true; _time := 5;
     _added_members := {[ "a" := (1%Q, 1); "c" := (3%Q, 3); "d" := (4%Q, 4) ]};
     _removed_members := {[ "b" := (38%Q, 5) ]};
     _waiting_answer := {[ "c" := 0; "d" := 1 ]};
     _active := {[ "a"; "c"; "d" ]}; _generation := 5 |}.

(** A merge loop run over the items of a sample in the order [items]. *)
Definition loop_in_order
    (item : string → SampleEntry → GroupMember → GroupMember)
    (self : GroupMember) (items : list (string * SampleEntry)) : GroupMember :=
  foldl (λ s kv, item kv.1 kv.2 s) self items.

(** ** Invariants of a run *)

(** The local counter is non-negative and the watermark is at least the
    counter. *)
Definition counters_ok (self : GroupMember) : Prop :=
  0 ≤ _generation self ∧ _generation self ≤ _time self.

(** The suspicion map of the engine of [proc_id] names other processes
    only, each in one of the states 0 (cleared), 1 (AWAITING_DIRECT) or
    2 (AWAITING_INDIRECT). *)
Definition suspicion_ok (proc_id : string) (self : GroupMember) : Prop :=
  _id self = proc_id
  ∧ ∀ p status, _waiting_answer self !! p = Some status →
                p ≠ proc_id ∧ (status = 0 ∨ status = 1 ∨ status = 2).

(** Every member of the cached active set has an entry in the added
    register. *)
Definition active_has_entry (self : GroupMember) : Prop :=
  ∀ p, p ∈ _active self → is_Some (_added_members self !! p).

(** The destinations of the network sends among some runtime calls. *)
Definition send_dests (actions : list Action) : list string :=
  omap (λ a, match a with send _ dest => Some dest | _ => None end) actions.

(** The engine [joined_a] after a LEAVE at time [5]. *)
Definition left_a : GroupMember :=
  {| _id := "a"; _joined := false; _time := 2;
     _added_members := ∅; _removed_members := {[ "a" := (5%Q, 2) ]};
     _waiting_answer := ∅; _active := ∅; _generation := 2 |}.

(** The engine of [proc_id] right after it created its own group at time
    [t]. *)
Definition created_alone (proc_id : string) (t : Q) : GroupMember :=
  {| _id := proc_id; _joined := true; _time := 1;
     _added_members := {[ proc_id := (t, 1) ]}; _removed_members := ∅;
     _waiting_answer := ∅; _active := {[ proc_id ]}; _generation := 1 |}.

(** The engine of [proc_id] after it created its own group and left it at
    time [t]. *)
Definition left_alone (proc_id : string) (t : Q) : GroupMember :=
  {| _id := proc_id; _joined := false; _time := 2;
     _added_members := ∅; _removed_members := {[ proc_id := (t, 2) ]};
     _waiting_answer := ∅; _active := ∅; _generation := 2 |}.

(** A sample that names "b" and "c". *)
Definition sample_bc : gmap string SampleEntry :=
  <[ "b" := {| timestamp := Some 6%Q; generation := Some 2 |} ]>
    (sample1 "c" 7 3).

(** * Properties *)

(** ** The active set, key by key *)

Lemma elem_of_active_fold (removed added : gmap string Tag) (p : string) :
  p ∈ map_fold (active_step removed) ∅ added
  ↔ active_key (added !! p) (removed !! p) = true.
Proof.
  revert p.
  apply (map_fold_weak_ind (λ acc m, ∀ p : string,
    p ∈ acc ↔ active_key (m !! p) (removed !! p) = true)).
  - intros p. rewrite lookup_empty. simpl. set_solver.
  - intros i x m acc Hi IH p. unfold active_step.
    destruct (decide (p = i)) as [->|Hne].
    + rewrite lookup_insert_eq. simpl.
      specialize (IH i). rewrite Hi in IH. simpl in IH.
      destruct (removed !! i) as [re|]; [destruct (x.2 >? re.2)|]; set_solver.
    + rewrite lookup_insert_ne by done. rewrite <- IH.
      destruct (removed !! i) as [re|]; [destruct (x.2 >? re.2)|]; set_solver.
Qed.

Lemma elem_of_get_active_members (self : GroupMember) (p : string) :
  p ∈ _get_active_members self
  ↔ active_key (_added_members self !! p) (_removed_members self !! p) = true.
Proof. apply elem_of_active_fold. Qed.

Lemma active_key_spec (a r : option Tag) :
  active_key a r = true
  ↔ ∃ ae, a = Some ae ∧ (r = None ∨ ∃ re, r = Some re ∧ ae.2 > re.2).
Proof.
  destruct a as [ae|], r as [re|]; simpl.
  - rewrite Z.gtb_gt. split.
    + intros H. exists ae. split; [done|]. right. by exists re.
    + intros (ae' & [= <-] & [?|(re' & [= <-] & H)]); done.
  - split; [|done]. intros _. exists ae. by split; [|left].
  - split; [done|]. by intros (? & ? & _).
  - split; [done|]. by intros (? & ? & _).
Qed.

(** ** The merge, key by key *)

Lemma same_frame_refl s : same_frame s s.
Proof. by repeat split. Qed.

Lemma same_frame_trans s1 s2 s3 :
  same_frame s1 s2 → same_frame s2 s3 → same_frame s1 s3.
Proof. unfold same_frame. intros; destruct_and!; repeat split; congruence. Qed.

Lemma merge_added_item_frame i x s : same_frame s (merge_added_item i x s).
Proof.
  unfold merge_added_item.
  repeat (case_match; try apply same_frame_refl); by repeat split.
Qed.

Lemma merge_removed_item_frame i x s : same_frame s (merge_removed_item i x s).
Proof.
  unfold merge_removed_item.
  repeat (case_match; try apply same_frame_refl); by repeat split.
Qed.

Lemma merge_added_item_eq i x s :
  key_state (merge_added_item i x s) i = merge_added_key (Some (entry_tag x)) (key_state s i).
Proof.
  unfold merge_added_item, merge_added_key, key_state, entry_tag. simpl.
  destruct (default 0 (generation x) >? _) eqn:Hgt; [|done].
  destruct (_removed_members s !! i) as [re|] eqn:Hr; simpl.
  - destruct (re.2 <? _); simpl.
    + by rewrite lookup_insert_eq, lookup_delete_eq.
    + by rewrite lookup_insert_eq, Hr.
  - by rewrite lookup_insert_eq, Hr.
Qed.

Lemma merge_added_item_ne i x s p :
  p ≠ i → key_state (merge_added_item i x s) p = key_state s p.
Proof.
  intros Hne. unfold merge_added_item, key_state.
  repeat (case_match; simpl; try done);
    by rewrite ?lookup_insert_ne, ?lookup_delete_ne.
Qed.

Lemma merge_removed_item_eq i x s :
  key_state (merge_removed_item i x s) i
  = merge_removed_key (Some (entry_tag x)) (key_state s i).
Proof.
  unfold merge_removed_item, merge_removed_key, key_state, entry_tag. simpl.
  destruct (default 0 (generation x) >? _) eqn:Hgt; [|done].
  destruct (_added_members s !! i) as [ae|] eqn:Ha; simpl.
  - destruct (ae.2 <? _); simpl.
    + by rewrite lookup_insert_eq, lookup_delete_eq.
    + by rewrite lookup_insert_eq, Ha.
  - by rewrite lookup_insert_eq, Ha.
Qed.

Lemma merge_removed_item_ne i x s p :
  p ≠ i → key_state (merge_removed_item i x s) p = key_state s p.
Proof.
  intros Hne. unfold merge_removed_item, key_state.
  repeat (case_match; simpl; try done);
    by rewrite ?lookup_insert_ne, ?lookup_delete_ne.
Qed.

(** A loop whose body touches only the entries of its own key computes, at
    every key, the body's effect on that key. *)
Lemma merge_loop_spec
    (item : string → SampleEntry → GroupMember → GroupMember)
    (key : option Tag → option Tag * option Tag → option Tag * option Tag)
    (self : GroupMember) (sample : gmap string SampleEntry) :
  (∀ ar, key None ar = ar) →
  (∀ i x s, same_frame s (item i x s)) →
  (∀ i x s,
     key_state (item i x s) i = key (Some (entry_tag x)) (key_state s i)) →
  (∀ i x s p, p ≠ i → key_state (item i x s) p = key_state s p) →
  same_frame self (map_fold item self sample)
  ∧ ∀ p, key_state (map_fold item self sample) p
         = key (entry_tag <$> sample !! p) (key_state self p).
Proof.
  intros Hnone Hframe Heq Hne.
  apply (map_fold_weak_ind (λ s' m,
    same_frame self s'
    ∧ ∀ p, key_state s' p = key (entry_tag <$> m !! p) (key_state self p))).
  - split; [apply same_frame_refl|]. intros p. by rewrite lookup_empty, Hnone.
  - intros i x m s' Hi [Hfr IH]. split.
    + eapply same_frame_trans; [exact Hfr|apply Hframe].
    + intros p. destruct (decide (p = i)) as [->|Hpi].
      * rewrite lookup_insert_eq, Heq, IH, Hi. by rewrite Hnone.
      * by rewrite lookup_insert_ne, Hne, IH.
Qed.

Lemma merge_added_loop self sample :
  same_frame self (map_fold merge_added_item self sample)
  ∧ ∀ p, key_state (map_fold merge_added_item self sample) p
         = merge_added_key (entry_tag <$> sample !! p) (key_state self p).
Proof.
  apply merge_loop_spec;
    auto using merge_added_item_frame, merge_added_item_eq, merge_added_item_ne.
Qed.

Lemma merge_removed_loop self sample :
  same_frame self (map_fold merge_removed_item self sample)
  ∧ ∀ p, key_state (map_fold merge_removed_item self sample) p
         = merge_removed_key (entry_tag <$> sample !! p) (key_state self p).
Proof.
  apply merge_loop_spec;
    auto using merge_removed_item_frame, merge_removed_item_eq,
               merge_removed_item_ne.
Qed.

Lemma merge_key_state self added_sample removed_sample time_value p :
  key_state (_merge_crdt_sample self added_sample removed_sample time_value) p
  = merge_key (entry_tag <$> added_sample !! p)
              (entry_tag <$> removed_sample !! p) (key_state self p).
Proof.
  unfold _merge_crdt_sample, merge_key.
  change (key_state (set_active ?s _) p) with (key_state s p).
  rewrite (proj2 (merge_removed_loop _ _)), (proj2 (merge_added_loop _ _)).
  done.
Qed.

Lemma merge_frame self added_sample removed_sample time_value :
  let self' := _merge_crdt_sample self added_sample removed_sample time_value in
  _id self' = _id self ∧ _joined self' = _joined self
  ∧ _time self' = Z.max (_time self) time_value
  ∧ _waiting_answer self' = _waiting_answer self
  ∧ _generation self' = _generation self
  ∧ _active self' = _get_active_members self'.
Proof.
  unfold _merge_crdt_sample.
  pose proof (proj1 (merge_added_loop
    (set_time self (Z.max (_time self) time_value)) added_sample)) as H1.
  pose proof (proj1 (merge_removed_loop
    (map_fold merge_added_item
       (set_time self (Z.max (_time self) time_value)) added_sample)
    removed_sample)) as H2.
  pose proof (same_frame_trans _ _ _ H1 H2) as (?&?&?&?&?&?).
  cbn [_id _joined _time _waiting_answer _generation _active set_active].
  repeat split; try done.
Qed.

(** Case analysis on the comparisons of a key-wise merge. *)
Ltac merge_key_cases :=
  unfold merge_key, merge_removed_key, merge_added_key, active_key in *;
  simpl in *;
  repeat match goal with
    | |- context [?x >? ?y] => destruct (Z.gtb_spec x y); simpl in *
    | |- context [?x <? ?y] => destruct (Z.ltb_spec x y); simpl in *
    end;
  try done; try lia.

Lemma merge_key_active_idem ea er ar :
  let ar1 := merge_key ea er ar in
  let ar2 := merge_key ea er ar1 in
  active_key ar2.1 ar2.2 = active_key ar1.1 ar1.2.
Proof.
  destruct ar as [[[ta ga]|] [[tr gr]|]], ea as [[tsa gena]|], er as [[tsr genr]|];
    merge_key_cases.
Qed.

(** A payload that names a key in one of its samples only is absorbed by
    the registers at its first merge. *)
Lemma merge_key_idem ea er ar :
  ea = None ∨ er = None →
  merge_key ea er (merge_key ea er ar) = merge_key ea er ar.
Proof.
  intros [-> | ->]; destruct ar as [[[ta ga]|] [[tr gr]|]].
  all: try destruct er as [[tsr genr]|]; try destruct ea as [[tsa gena]|].
  all: merge_key_cases.
Qed.

(** ** The verdict of a key as a pair of maxima *)

Lemma tracks_init ar : key_nonneg ar → tracks (gen_of ar.1) (gen_of ar.2) ar.
Proof.
  intros H. split; [done|].
  destruct (Z.lt_ge_cases (gen_of ar.2) (gen_of ar.1)); [left|right]; lia.
Qed.

Lemma tracks_added e ma mr ar :
  tracks ma mr ar →
  tracks (Z.max ma (sample_gen e)) mr (merge_added_key e ar).
Proof.
  unfold tracks, key_nonneg, tag_nonneg, sample_gen, gen_of.
  intros [[Ha Hr] H].
  destruct ar as [[[ta ga]|] [[tr gr]|]], e as [[ts gen]|]; merge_key_cases.
Qed.

Lemma tracks_removed e ma mr ar :
  tracks ma mr ar →
  tracks ma (Z.max mr (sample_gen e)) (merge_removed_key e ar).
Proof.
  unfold tracks, key_nonneg, tag_nonneg, sample_gen, gen_of.
  intros [[Ha Hr] H].
  destruct ar as [[[ta ga]|] [[tr gr]|]], e as [[ts gen]|]; merge_key_cases.
Qed.

Lemma tracks_merge ea er ma mr ar :
  tracks ma mr ar →
  tracks (Z.max ma (sample_gen ea)) (Z.max mr (sample_gen er))
         (merge_key ea er ar).
Proof. intros H. by apply tracks_removed, tracks_added. Qed.

Lemma tracks_active ma mr ar :
  tracks ma mr ar → active_key ar.1 ar.2 = (ma >? mr).
Proof.
  unfold tracks, key_nonneg, tag_nonneg, gen_of. intros [[Ha Hr] H].
  destruct ar as [[[ta ga]|] [[tr gr]|]]; merge_key_cases.
Qed.

Lemma merge_key_active_comm ea er ea' er' ar :
  key_nonneg ar →
  let xy := merge_key ea' er' (merge_key ea er ar) in
  let yx := merge_key ea er (merge_key ea' er' ar) in
  active_key xy.1 xy.2 = active_key yx.1 yx.2.
Proof.
  intros H%tracks_init. cbv zeta.
  rewrite (tracks_active _ _ _ (tracks_merge ea' er' _ _ _ (tracks_merge ea er _ _ _ H))).
  rewrite (tracks_active _ _ _ (tracks_merge ea er _ _ _ (tracks_merge ea' er' _ _ _ H))).
  f_equal; lia.
Qed.

(** ** Sampling *)

Lemma random_sample_submseteq {A} (k : nat) (rnd : list nat) (l : list A) :
  (random_sample rnd l k).1 ⊆+ l.
Proof.
  revert rnd l. induction k as [|k IH]; intros rnd l.
  - destruct l; apply submseteq_nil_l.
  - destruct l as [|x l]; [done|]. cbn [random_sample].
    destruct (draw rnd) as [n rnd1].
    set (i := (n mod length (x :: l))%nat).
    specialize (IH rnd1 (delete i (x :: l))).
    destruct (random_sample rnd1 (delete i (x :: l)) k) as [rest rnd2].
    cbn [fst] in *.
    assert (Hi : (i < length (x :: l))%nat)
      by (apply Nat.mod_upper_bound; done).
    destruct (lookup_lt_is_Some_2 _ _ Hi) as [y Hy].
    rewrite (nth_lookup_Some _ _ _ _ Hy).
    trans (y :: delete i (x :: l)); [by apply submseteq_skip|].
    apply Permutation_submseteq. symmetry. by apply delete_Permutation.
Qed.

Lemma random_sample_length {A} (k : nat) (rnd : list nat) (l : list A) :
  length (random_sample rnd l k).1 = Nat.min k (length l).
Proof.
  revert rnd l. induction k as [|k IH]; intros rnd l.
  - by destruct l.
  - destruct l as [|x l]; [done|]. cbn [random_sample].
    destruct (draw rnd) as [n rnd1].
    set (i := (n mod length (x :: l))%nat).
    specialize (IH rnd1 (delete i (x :: l))).
    destruct (random_sample rnd1 (delete i (x :: l)) k) as [rest rnd2].
    cbn [fst length] in *.
    assert (Hi : (i < length (x :: l))%nat)
      by (apply Nat.mod_upper_bound; done).
    rewrite IH, length_delete by by apply lookup_lt_is_Some_2.
    cbn [length]. lia.
Qed.

(** Iterating a set visits every member exactly once. *)
Lemma set_iter_Permutation (order : list nat) (s : gset string) :
  set_iter order s ≡ₚ elements s.
Proof.
  unfold set_iter. apply submseteq_length_Permutation.
  - apply random_sample_submseteq.
  - rewrite random_sample_length. unfold size, set_size. simpl. lia.
Qed.

Lemma set_iter_NoDup (order : list nat) (s : gset string) :
  NoDup (set_iter order s).
Proof. rewrite set_iter_Permutation. apply NoDup_elements. Qed.

Lemma elem_of_set_iter (order : list nat) (s : gset string) (p : string) :
  p ∈ set_iter order s ↔ p ∈ s.
Proof. rewrite set_iter_Permutation. apply elem_of_elements. Qed.

(** ** The serialized sample *)

Lemma serialize_fold_lookup (l : list (string * Tag))
    (d : gmap string SampleEntry) (p : string) (e : SampleEntry) :
  foldl serialize_item d l !! p = Some e →
  d !! p = Some e ∨ ∃ t, (p, t) ∈ l ∧ e = serialize_tag t.
Proof.
  revert d. induction l as [|[q [ts gen]] l IH]; intros d H; [by left|].
  cbn [foldl] in H. apply IH in H as [H|(t & Ht & ->)].
  - unfold serialize_item in H. destruct (decide (q = p)) as [->|Hne].
    + rewrite lookup_insert_eq in H. injection H as <-.
      right. exists (ts, gen). split; [left|done].
    + rewrite lookup_insert_ne in H by done. by left.
  - right. exists t. split; [by right|done].
Qed.

(** Every entry of a sample is the serialized entry of the register it was
    drawn from, and the sample holds at most [SAMPLE_SIZE] entries. *)
Lemma serialize_sample_sound (rnd : list nat) (data_dict : gmap string Tag)
    (p : string) (e : SampleEntry) :
  (_serialize_sample rnd data_dict).1 !! p = Some e →
  ∃ t, data_dict !! p = Some t ∧ e = serialize_tag t.
Proof.
  unfold _serialize_sample.
  set (items := map_to_list data_dict).
  set (k := Nat.min Params.SAMPLE_SIZE (length items)).
  pose proof (random_sample_submseteq k rnd items) as Hsub.
  destruct (0 <? k)%nat; [destruct (random_sample rnd items k) as [l r]|];
    cbn [fst] in *; intros H.
  - apply serialize_fold_lookup in H as [H|(t & Ht & ->)]; [done|].
    exists t. split; [|done].
    apply elem_of_map_to_list. by eapply elem_of_submseteq.
  - done.
Qed.

(** ** An invariant of every run: generations are never negative *)

Lemma init_gens_nonneg proc_id : gens_nonneg (__init__ proc_id).
Proof.
  split; [done|]. intros p. unfold key_state, key_nonneg. simpl.
  by rewrite !lookup_empty.
Qed.

Lemma mark_added_key_state self q ts p :
  key_state (_mark_added self q ts) p
  = if decide (p = q)
    then (Some (ts, _generation self + 1),
          match _removed_members self !! q with
          | Some removed_entry =>
              if float_gt ts removed_entry.1 then None else Some removed_entry
          | None => None
          end)
    else key_state self p.
Proof.
  unfold _mark_added, key_state. cbn [_added_members _removed_members].
  destruct (decide (p = q)) as [->|Hne].
  - rewrite lookup_insert_eq. f_equal.
    destruct (_removed_members self !! q) as [re|] eqn:Hr; [|done].
    destruct (float_gt ts re.1); [apply lookup_delete_eq|done].
  - rewrite lookup_insert_ne by done. f_equal.
    destruct (_removed_members self !! q) as [re|]; [|done].
    destruct (float_gt ts re.1); [by apply lookup_delete_ne|done].
Qed.

Lemma mark_removed_key_state self q ts p :
  key_state (_mark_removed self q ts) p
  = if decide (p = q)
    then (match _added_members self !! q with
          | Some added_entry =>
              if _generation self + 1 >? added_entry.2
              then None else Some added_entry
          | None => None
          end,
          Some (ts, _generation self + 1))
    else key_state self p.
Proof.
  unfold _mark_removed, key_state. cbn [_added_members _removed_members].
  destruct (decide (p = q)) as [->|Hne].
  - rewrite lookup_insert_eq. f_equal.
    destruct (_added_members self !! q) as [ae|] eqn:Ha; [|done].
    destruct (_ >? ae.2); [apply lookup_delete_eq|done].
  - rewrite lookup_insert_ne by done. f_equal.
    destruct (_added_members self !! q) as [ae|]; [|done].
    destruct (_ >? ae.2); [by apply lookup_delete_ne|done].
Qed.

Lemma mark_added_gens_nonneg self q ts :
  gens_nonneg self → gens_nonneg (_mark_added self q ts).
Proof.
  intros [HG H]. split; [simpl; lia|]. intros p.
  rewrite mark_added_key_state. specialize (H p).
  destruct (decide (p = q)) as [->|]; [|done].
  destruct H as [_ Hr]. unfold key_state in Hr. cbn [fst snd] in Hr.
  split; cbn [fst snd tag_nonneg]; [lia|].
  destruct (_removed_members self !! q) as [re|]; [|done].
  by destruct (float_gt ts re.1).
Qed.

Lemma mark_removed_gens_nonneg self q ts :
  gens_nonneg self → gens_nonneg (_mark_removed self q ts).
Proof.
  intros [HG H]. split; [simpl; lia|]. intros p.
  rewrite mark_removed_key_state. specialize (H p).
  destruct (decide (p = q)) as [->|]; [|done].
  destruct H as [Ha _]. unfold key_state in Ha. cbn [fst snd] in Ha.
  split; cbn [fst snd tag_nonneg]; [|lia].
  destruct (_added_members self !! q) as [ae|]; [|done].
  by destruct (_ >? ae.2).
Qed.

Lemma merge_gens_nonneg self added_sample removed_sample time_value :
  gens_nonneg self →
  gens_nonneg (_merge_crdt_sample self added_sample removed_sample time_value).
Proof.
  intros [HG H]. split.
  - by destruct (merge_frame self added_sample removed_sample time_value)
      as (_&_&_&_&->&_).
  - intros p. rewrite merge_key_state.
    by destruct (tracks_merge (entry_tag <$> added_sample !! p)
                  (entry_tag <$> removed_sample !! p) _ _ _
                  (tracks_init _ (H p))).
Qed.

Lemma set_active_gens_nonneg self a :
  gens_nonneg self → gens_nonneg (set_active self a).
Proof. done. Qed.

Lemma set_waiting_answer_gens_nonneg self w :
  gens_nonneg self → gens_nonneg (set_waiting_answer self w).
Proof. done. Qed.

Lemma set_joined_gens_nonneg self j :
  gens_nonneg self → gens_nonneg (set_joined self j).
Proof. done. Qed.

Create HintDb nonneg.
#[local] Hint Resolve init_gens_nonneg mark_added_gens_nonneg
  mark_removed_gens_nonneg merge_gens_nonneg set_active_gens_nonneg
  set_waiting_answer_gens_nonneg set_joined_gens_nonneg : nonneg.

Ltac handler_cases :=
  repeat match goal with
    | |- context [if ?b then _ else _] => destruct b
    | |- context [match ?o with Some _ => _ | None => _ end] => destruct o
    | |- context [match ?l with [] => _ | _ :: _ => _ end] => destruct l
    | |- context [let '(_, _) := ?e in _] => destruct e
    end.

Lemma on_message_gens_nonneg self msg sender ctx :
  gens_nonneg self → gens_nonneg (on_message self msg sender ctx).1.
Proof.
  intros H. unfold on_message, _on_ping, _on_ping_answer.
  handler_cases; cbn [fst]; auto 8 with nonneg.
Qed.

Lemma on_timer_gens_nonneg self timer_name ctx :
  gens_nonneg self → gens_nonneg (on_timer self timer_name ctx).1.
Proof.
  intros H. unfold on_timer, _periodic_ping.
  handler_cases; cbn [fst]; auto 8 with nonneg.
Qed.

Lemma on_local_message_gens_nonneg self msg ctx res :
  gens_nonneg self → on_local_message self msg ctx = Some res →
  gens_nonneg res.1.
Proof.
  intros H. unfold on_local_message, _create_group, _join_group, _leave_group.
  handler_cases; intros [= <-]; cbn [fst]; auto 8 with nonneg.
Qed.

Lemma deliver_gens_nonneg self ev res :
  gens_nonneg self → deliver self ev = Some res → gens_nonneg res.1.
Proof.
  intros H. destruct ev as [msg ctx|msg sender ctx|timer_name ctx]; simpl.
  - by apply on_local_message_gens_nonneg.
  - intros [= <-]. by apply on_message_gens_nonneg.
  - intros [= <-]. by apply on_timer_gens_nonneg.
Qed.

Lemma run_gens_nonneg evs self self' :
  gens_nonneg self → run self evs = Some self' → gens_nonneg self'.
Proof.
  revert self. induction evs as [|ev evs IH]; intros self H; simpl.
  - by intros [= <-].
  - destruct (deliver self ev) as [[s1 acts]|] eqn:Hd; [|done].
    apply IH. by apply (deliver_gens_nonneg _ _ _ H Hd).
Qed.

Lemma reachable_gens_nonneg proc_id self :
  reachable proc_id self → gens_nonneg self.
Proof. intros [evs H]. eapply run_gens_nonneg; [apply init_gens_nonneg|done]. Qed.

(** ** The members query *)

(** C1. In every state, GET_MEMBERS is answered, without changing the state,
    by one MEMBERS message that lists, each once, the set returned by
    [_get_active_members], and a process id is in that set exactly when it
    is a key of [_added_members] and either is not a key of
    [_removed_members] or has an added generation greater than its removed
    generation. *)
Theorem get_members_exact (self : GroupMember) (msg : Message) (ctx : Context) :
  msg_type msg = "GET_MEMBERS" →
  (∃ members,
     on_local_message self msg ctx = Some (self, [send_local (MEMBERS members)])
     ∧ NoDup members
     ∧ ∀ p, p ∈ members ↔ p ∈ _get_active_members self)
  ∧ ∀ p, p ∈ _get_active_members self
         ↔ ∃ added_entry,
             _added_members self !! p = Some added_entry
             ∧ (_removed_members self !! p = None
                ∨ ∃ removed_entry,
                    _removed_members self !! p = Some removed_entry
                    ∧ added_entry.2 > removed_entry.2).
Proof.
  intros Hty. split.
  - exists (set_iter (set_order ctx) (_get_active_members self)).
    split; [|split].
    + unfold on_local_message. by rewrite Hty.
    + apply set_iter_NoDup.
    + intros p. apply elem_of_set_iter.
  - intros p. rewrite elem_of_get_active_members. apply active_key_spec.
Qed.

Lemma get_members_exact_witness :
  msg_type GET_MEMBERS = "GET_MEMBERS"
  ∧ ∃ members,
      on_local_message joined_a GET_MEMBERS (ctx_at 2)
        = Some (joined_a, [send_local (MEMBERS members)])
      ∧ NoDup members
      ∧ ∀ p, p ∈ members ↔ p ∈ _get_active_members joined_a.
Proof.
  split; [reflexivity|].
  apply (get_members_exact joined_a GET_MEMBERS (ctx_at 2)). reflexivity.
Defined.

Example get_members_joined_a :
  on_local_message joined_a GET_MEMBERS (ctx_at 2)
  = Some (joined_a, [send_local (MEMBERS ["a"])]).
Proof. vm_compute. reflexivity. Qed.

(** ** Presence of both entries of a key *)

Lemma rejoin_run_registers :
  (self ← run (__init__ "a") rejoin_run;
   Some (_added_members self !! "a", _removed_members self !! "a"))
  = Some (Some (1%Q, 3), Some (1%Q, 2)).
Proof. vm_compute. reflexivity. Qed.

(** C2, counterexample.  After JOIN, LEAVE and JOIN of its own group within
    one clock reading, process "a" holds both [added["a"]] (generation 3)
    and [removed["a"]] (generation 2): the second [_mark_added] compares
    timestamps, which are equal, and deletes nothing. *)
Lemma both_entries_present_reachable :
  ¬ ∀ proc_id self p,
      reachable proc_id self →
      _added_members self !! p = None ∨ _removed_members self !! p = None.
Proof.
  intros H. pose proof rejoin_run_registers as Hrun.
  destruct (run (__init__ "a") rejoin_run) as [self|] eqn:Hself; [|done].
  injection Hrun as Ha Hr.
  destruct (H "a" self "a" (ex_intro _ rejoin_run Hself)); congruence.
Qed.

(** C2, amended.  A mark, or a merge that writes an entry for [p], deletes
    the opposite entry of [p] exactly when the written entry dominates it,
    and otherwise leaves it in place next to the written one:
    [_mark_removed] deletes [added[p]] iff its generation is below the fresh
    generation; [_mark_added] deletes [removed[p]] iff its timestamp is
    below the new timestamp; a merge whose payload names [p] in one sample
    only, with a generation above the one the register holds ([-1] when it
    holds none), writes that entry and deletes the opposite one iff its
    generation is below the merged generation. *)
Theorem opposite_entry_deleted_iff_dominated (self : GroupMember) (p : string) :
  (∀ ts,
     key_state (_mark_removed self p ts) p
     = (keep_unless (λ e, e.2 <? _generation self + 1) (_added_members self !! p),
        Some (ts, _generation self + 1)))
  ∧ (∀ ts,
     key_state (_mark_added self p ts) p
     = (Some (ts, _generation self + 1),
        keep_unless (λ e, float_gt ts e.1) (_removed_members self !! p)))
  ∧ (∀ added_sample removed_sample time_value data,
     added_sample !! p = Some data → removed_sample !! p = None →
     (entry_tag data).2 > gen_of (_added_members self !! p) →
     key_state (_merge_crdt_sample self added_sample removed_sample time_value) p
     = (Some (entry_tag data),
        keep_unless (λ e, e.2 <? (entry_tag data).2) (_removed_members self !! p)))
  ∧ (∀ added_sample removed_sample time_value data,
     added_sample !! p = None → removed_sample !! p = Some data →
     (entry_tag data).2 > gen_of (_removed_members self !! p) →
     key_state (_merge_crdt_sample self added_sample removed_sample time_value) p
     = (keep_unless (λ e, e.2 <? (entry_tag data).2) (_added_members self !! p),
        Some (entry_tag data))).
Proof.
  split; [|split; [|split]].
  - intros ts. rewrite mark_removed_key_state, decide_True by done.
    unfold keep_unless. f_equal.
    destruct (_added_members self !! p) as [ae|]; [|done].
    by rewrite Z.gtb_ltb.
  - intros ts. by rewrite mark_added_key_state, decide_True.
  - intros sa sr tv data Ha Hr Hgt. rewrite merge_key_state, Ha, Hr.
    unfold merge_key, merge_removed_key, merge_added_key, key_state, gen_of in *.
    cbn [fmap option_fmap option_map fst snd].
    destruct (entry_tag data) as [ts gen]. cbn [snd] in *.
    by rewrite (proj2 (Z.gtb_gt _ _) Hgt).
  - intros sa sr tv data Ha Hr Hgt. rewrite merge_key_state, Ha, Hr.
    unfold merge_key, merge_removed_key, merge_added_key, key_state, gen_of in *.
    cbn [fmap option_fmap option_map fst snd].
    destruct (entry_tag data) as [ts gen]. cbn [snd] in *.
    by rewrite (proj2 (Z.gtb_gt _ _) Hgt).
Qed.

Lemma opposite_entry_deleted_iff_dominated_witness :
  sample1 "b" 4 5 !! "b" = Some (mkSampleEntry (Some 4%Q) (Some 5))
  ∧ (∅ : gmap string SampleEntry) !! "b" = None
  ∧ (entry_tag (mkSampleEntry (Some 4%Q) (Some 5))).2
    > gen_of (_removed_members joined_a !! "b")
  ∧ key_state (_merge_crdt_sample joined_a ∅ (sample1 "b" 4 5) 0) "b"
    = (None, Some (4%Q, 5))
  ∧ key_state (_mark_removed joined_a "a" 9) "a" = (None, Some (9%Q, 2)).
Proof.
  assert (H1 : sample1 "b" 4 5 !! "b" = Some (mkSampleEntry (Some 4%Q) (Some 5)))
    by reflexivity.
  assert (H2 : (∅ : gmap string SampleEntry) !! "b" = None) by reflexivity.
  assert (H3 : (entry_tag (mkSampleEntry (Some 4%Q) (Some 5))).2
               > gen_of (_removed_members joined_a !! "b")) by reflexivity.
  exact (conj H1 (conj H2 (conj H3 (conj
    (proj2 (proj2 (proj2 (opposite_entry_deleted_iff_dominated joined_a "b")))
       ∅ (sample1 "b" 4 5) 0 _ H2 H1 H3)
    (proj1 (opposite_entry_deleted_iff_dominated joined_a "a") 9%Q))))).
Defined.

(** ** Local removal *)

Lemma gossip_run_removed_a :
  (self ← run (__init__ "a") gossip_run;
   Some (_generation self,
         _added_members (_mark_removed self "a" 3) !! "a"))
  = Some (2, Some (7%Q, 100)).
Proof. vm_compute. reflexivity. Qed.

(** C10, counterexample.  Process "a" has issued two generations when gossip
    hands it an [added] tag of generation 100 for "a"; [_mark_removed] then
    stamps generation 3, which does not exceed 100, and [added["a"]] stays. *)
Lemma mark_removed_keeps_newer_added :
  ¬ ∀ proc_id self p ts,
      reachable proc_id self →
      _added_members (_mark_removed self p ts) !! p = None.
Proof.
  intros H. pose proof gossip_run_removed_a as Hrun.
  destruct (run (__init__ "a") gossip_run) as [self|] eqn:Hself; [|done].
  injection Hrun as _ Ha.
  pose proof (H "a" self "a" 3%Q (ex_intro _ gossip_run Hself)) as Hn.
  discriminate (eq_trans (eq_sym Hn) Ha).
Qed.

(** The same run seen from outside: after LEAVE, GET_MEMBERS still lists
    "a". *)
Example leave_after_gossip_still_member :
  (self ← run (__init__ "a") (gossip_run ++ [LocalMessage LEAVE (ctx_at 3)]);
   res ← on_local_message self GET_MEMBERS (ctx_at 4);
   Some (_joined self, _active self, res.2))
  = Some (false, {["b"]}, [send_local (MEMBERS ["a"; "b"])]).
Proof. vm_compute. reflexivity. Qed.

(** C10, amended.  Right after [_mark_removed(p, ts)], [p] is not in the
    cached active set and [removed[p]] carries the fresh generation; the
    added register has no entry for [p] exactly when it had none or its
    generation was below the fresh generation, which holds for every entry
    whose generation is at most the local counter, and an entry of a higher
    generation is left as it was. *)
Theorem mark_removed_effect (self : GroupMember) (p : string) (ts : Q) :
  let self' := _mark_removed self p ts in
  (p ∉ _active self')
  ∧ _removed_members self' !! p = Some (ts, _generation self + 1)
  ∧ (_added_members self' !! p = None
     ↔ ∀ added_entry, _added_members self !! p = Some added_entry →
                      added_entry.2 < _generation self + 1)
  ∧ (∀ added_entry, _added_members self !! p = Some added_entry →
                    added_entry.2 ≤ _generation self →
                    _added_members self' !! p = None)
  ∧ (∀ added_entry, _added_members self !! p = Some added_entry →
                    _generation self + 1 ≤ added_entry.2 →
                    _added_members self' !! p = Some added_entry).
Proof.
  cbv zeta.
  pose proof (mark_removed_key_state self p ts p) as Hk.
  rewrite decide_True in Hk by done.
  assert (Ha : _added_members (_mark_removed self p ts) !! p
               = match _added_members self !! p with
                 | Some added_entry =>
                     if _generation self + 1 >? added_entry.2
                     then None else Some added_entry
                 | None => None
                 end) by exact (f_equal fst Hk).
  assert (Hr : _removed_members (_mark_removed self p ts) !! p
               = Some (ts, _generation self + 1)) by exact (f_equal snd Hk).
  rewrite Ha, Hr. clear Hk Ha Hr.
  split; [simpl; set_solver|]. split; [done|].
  destruct (_added_members self !! p) as [ae|]; [|by repeat split].
  destruct (Z.gtb_spec (_generation self + 1) ae.2).
  - repeat split; intros; simplify_eq; try done; lia.
  - repeat split; intros; simplify_eq; try done.
    + exfalso. assert (ae.2 < _generation self + 1) by auto. lia.
    + lia.
Qed.

Lemma mark_removed_effect_witness :
  _added_members joined_a !! "a" = Some (1%Q, 1)
  ∧ (1%Q, 1).2 ≤ _generation joined_a
  ∧ _added_members (_mark_removed joined_a "a" 9) !! "a" = None.
Proof.
  assert (H1 : _added_members joined_a !! "a" = Some (1%Q, 1)) by reflexivity.
  assert (H2 : (1%Q, 1).2 ≤ _generation joined_a) by (simpl; lia).
  exact (conj H1 (conj H2
    (proj1 (proj2 (proj2 (proj2 (mark_removed_effect joined_a "a" 9))))
       _ H1 H2))).
Defined.

(** ** JOIN on an engine that has joined *)

Lemma create_group_reaches_joined_a :
  run (__init__ "a") [LocalMessage (JOIN "a") (ctx_at 1)] = Some joined_a.
Proof. vm_compute. reflexivity. Qed.

(** C3, the failing input.  On the engine of "a" that has joined, a further
    [JOIN {seed: "a"}] runs [_create_group] again: it stamps a new
    generation, overwrites [added["a"]], raises the watermark and re-arms
    the probe timer. *)
Theorem join_self_when_joined_changes_state :
  reachable "a" joined_a
  ∧ _joined joined_a = true
  ∧ on_local_message joined_a (JOIN "a") (ctx_at 2)
    = Some (rejoined_a, [set_timer "periodic_ping" Params.T])
  ∧ rejoined_a ≠ joined_a.
Proof.
  split; [|split; [|split]].
  - eexists. apply create_group_reaches_joined_a.
  - reflexivity.
  - vm_compute. reflexivity.
  - intros H. apply (f_equal _generation) in H. discriminate H.
Qed.

(** The part of C3 the code does implement: with a seed other than the
    engine's own id, JOIN on a joined engine changes nothing and issues no
    runtime call. *)
Lemma join_other_seed_when_joined_noop (self : GroupMember) (msg : Message)
    (seed : string) (ctx : Context) :
  msg_type msg = "JOIN" → msg_seed msg = Some seed →
  _joined self = true → seed ≠ _id self →
  on_local_message self msg ctx = Some (self, []).
Proof.
  intros Hty Hseed Hj Hne. unfold on_local_message.
  rewrite Hty, Hseed, bool_decide_eq_true_2 by done.
  rewrite bool_decide_eq_false_2 by done.
  unfold _join_group. by rewrite Hj.
Qed.

(** ** Algebra of the merge *)

Lemma merge_payload_key_state x self p :
  key_state (merge x self) p
  = merge_key (entry_tag <$> added_sample x !! p)
              (entry_tag <$> removed_sample x !! p) (key_state self p).
Proof. apply merge_key_state. Qed.

Lemma elem_of_get_active_key self p :
  p ∈ _get_active_members self
  ↔ active_key (key_state self p).1 (key_state self p).2 = true.
Proof. apply elem_of_get_active_members. Qed.

Lemma merge_active_cached x self :
  _active (merge x self) = _get_active_members (merge x self).
Proof. by destruct (merge_frame self (added_sample x) (removed_sample x)
                      (time_value x)) as (_&_&_&_&_&?). Qed.

(** Two states with the same registers, key by key, and the same other
    fields are equal. *)
Lemma GroupMember_eq (s1 s2 : GroupMember) :
  _id s1 = _id s2 → _joined s1 = _joined s2 → _time s1 = _time s2 →
  _waiting_answer s1 = _waiting_answer s2 → _active s1 = _active s2 →
  _generation s1 = _generation s2 →
  (∀ p, key_state s1 p = key_state s2 p) →
  s1 = s2.
Proof.
  destruct s1, s2. simpl. intros -> -> -> -> -> -> H. f_equal.
  - apply map_eq. intros p. exact (f_equal fst (H p)).
  - apply map_eq. intros p. exact (f_equal snd (H p)).
Qed.



Lemma merge_fields (x : Payload) (self : GroupMember) :
  _id (merge x self) = _id self ∧ _joined (merge x self) = _joined self
  ∧ _time (merge x self) = Z.max (_time self) (time_value x)
  ∧ _waiting_answer (merge x self) = _waiting_answer self
  ∧ _generation (merge x self) = _generation self
  ∧ _active (merge x self) = _get_active_members (merge x self).
Proof. apply merge_frame. Qed.

Lemma merge_twice_get_active (self : GroupMember) (x : Payload) :
  _get_active_members (merge x (merge x self))
  = _get_active_members (merge x self).
Proof.
  apply set_eq. intros p. rewrite !elem_of_get_active_key, !merge_payload_key_state.
  by rewrite (merge_key_active_idem _ _ (key_state self p)).
Qed.


(** When no process id occurs in both samples of the payload, the second
    merge changes nothing at all. *)
Lemma merge_twice_disjoint_samples (self : GroupMember) (x : Payload) :
  dom (added_sample x) ## dom (removed_sample x) →
  merge x (merge x self) = merge x self.
Proof.
  intros Hdisj.
  destruct (merge_fields x (merge x self)) as (Hid & Hj & Ht & Hw & Hg & Ha).
  destruct (merge_fields x self) as (_ & _ & Ht' & _ & _ & Ha').
  apply GroupMember_eq; try done.
  { rewrite Ht, Ht'. lia. }
  { rewrite Ha, Ha'. apply merge_twice_get_active. }
  intros p. rewrite !merge_payload_key_state. apply merge_key_idem.
  destruct (added_sample x !! p) as [ea|] eqn:Hea; [|by left].
  destruct (removed_sample x !! p) as [er|] eqn:Her; [|by right].
  exfalso. apply (Hdisj p); apply elem_of_dom; eauto.
Qed.

Lemma remove_add_orders :
  _removed_members (merge add_b_payload (merge remove_b_payload (__init__ "a")))
    !! "b" = None
  ∧ _removed_members
      (merge remove_b_payload (merge add_b_payload (__init__ "a"))) !! "b"
    = Some (5%Q, 1).
Proof. split; vm_compute; reflexivity. Qed.

(** C5, counterexample.  On the fresh engine, merging "b removed at
    generation 1" and then "b added at generation 2" deletes [removed["b"]];
    in the other order the removed entry is written after the added one and
    stays. *)
Lemma merge_order_changes_registers :
  ¬ ∀ proc_id self x y,
      reachable proc_id self →
      _removed_members (merge y (merge x self))
      = _removed_members (merge x (merge y self)).
Proof.
  intros H. destruct remove_add_orders as [H1 H2].
  rewrite (H "a" (__init__ "a") remove_b_payload add_b_payload) in H1
    by (by exists []).
  congruence.
Qed.

(** On a state without negative generations, merges commute on the
    watermark and on the active set. *)
Lemma merge_comm_view (self : GroupMember) (x y : Payload) :
  gens_nonneg self →
  _time (merge y (merge x self)) = _time (merge x (merge y self))
  ∧ _get_active_members (merge y (merge x self))
    = _get_active_members (merge x (merge y self)).
Proof.
  intros [_ Hnn]. split.
  - unfold merge. rewrite !(proj1 (proj2 (proj2 (merge_frame _ _ _ _)))). lia.
  - apply set_eq. intros p. rewrite !elem_of_get_active_key, !merge_payload_key_state.
    by rewrite (merge_key_active_comm _ _ _ _ (key_state self p) (Hnn p)).
Qed.

(** C5, amended.  In every reachable state and for every pair of payloads,
    merging them in either order yields the same watermark and the same
    active set, cached and as [_get_active_members] computes it, and the
    same fields outside the two registers; the registers are not covered. *)
Theorem merge_commutes_on_view (proc_id : string) (self : GroupMember)
    (x y : Payload) :
  reachable proc_id self →
  let xy := merge y (merge x self) in
  let yx := merge x (merge y self) in
  _time xy = _time yx
  ∧ _active xy = _active yx
  ∧ _get_active_members xy = _get_active_members yx
  ∧ _id xy = _id yx ∧ _joined xy = _joined yx
  ∧ _waiting_answer xy = _waiting_answer yx
  ∧ _generation xy = _generation yx.
Proof.
  intros Hreach%reachable_gens_nonneg. cbv zeta.
  destruct (merge_comm_view self x y Hreach) as [Ht Hv].
  rewrite !merge_active_cached.
  repeat split; try done; unfold merge;
    repeat match goal with
      | |- context [_id (_merge_crdt_sample ?s ?a ?r ?t)] =>
          rewrite (proj1 (merge_frame s a r t))
      | |- context [_joined (_merge_crdt_sample ?s ?a ?r ?t)] =>
          rewrite (proj1 (proj2 (merge_frame s a r t)))
      | |- context [_waiting_answer (_merge_crdt_sample ?s ?a ?r ?t)] =>
          rewrite (proj1 (proj2 (proj2 (proj2 (merge_frame s a r t)))))
      | |- context [_generation (_merge_crdt_sample ?s ?a ?r ?t)] =>
          rewrite (proj1 (proj2 (proj2 (proj2 (proj2 (merge_frame s a r t))))))
      end; done.
Qed.

Lemma merge_commutes_on_view_witness :
  reachable "a" (__init__ "a")
  ∧ _get_active_members
      (merge add_b_payload (merge remove_b_payload (__init__ "a")))
    = _get_active_members
        (merge remove_b_payload (merge add_b_payload (__init__ "a"))).
Proof.
  assert (H : reachable "a" (__init__ "a")) by (exists []; reflexivity).
  exact (conj H (proj1 (proj2 (proj2
    (merge_commutes_on_view "a" (__init__ "a") remove_b_payload add_b_payload
       H))))).
Defined.

(** Outside the runs of the engine the order can matter even for the active
    set: with both entries of "b" at generation [-3], a removed and an added
    sample of generation [-2] leave "b" active in one order only. *)
Example merge_order_matters_on_negative_generations :
  _get_active_members (merge add_b_minus2 (merge remove_b_minus2 negative_b)) = ∅
  ∧ _get_active_members (merge remove_b_minus2 (merge add_b_minus2 negative_b))
    = {[ "b" ]}.
Proof. split; vm_compute; reflexivity. Qed.

(** ** Timer names *)

Lemma substring_all (s : string) : String.substring 0 (String.length s) s = s.
Proof. induction s as [|c s IH]; simpl; [done|by rewrite IH]. Qed.

Lemma ping_timer_name (target : string) :
  String.prefix "ping_" ("ping_" +:+ target) = true
  ∧ String.substring 5 (String.length ("ping_" +:+ target) - 5)
      ("ping_" +:+ target) = target.
Proof.
  split; [by destruct target|]. simpl. rewrite Nat.sub_0_r.
  apply substring_all.
Qed.

Lemma merge_id self a r t : _id (_merge_crdt_sample self a r t) = _id self.
Proof. apply merge_frame. Qed.

Lemma merge_waiting_answer self a r t :
  _waiting_answer (_merge_crdt_sample self a r t) = _waiting_answer self.
Proof. apply merge_frame. Qed.

Lemma on_message_PING self msg sender ctx :
  msg_type msg = "PING" →
  on_message self msg sender ctx = _on_ping self msg sender ctx.
Proof. intros H. unfold on_message. by rewrite H. Qed.

Lemma on_message_PING_ANSWER self msg sender ctx :
  msg_type msg = "PING_ANSWER" →
  on_message self msg sender ctx = _on_ping_answer self msg sender ctx.
Proof. intros H. unfold on_message. by rewrite H. Qed.

(** ** The PING handler *)

(** C6. A PING that carries a target other than the receiver is merged and
    then relayed to the target as it came: that is the only runtime call, no
    PING_ANSWER is sent and the state is the merged one, without any mark
    for the sender.  A PING whose target is the receiver itself is handled
    as the same PING without a target, and that handling ends with one
    PING_ANSWER to the sender and relays nothing. *)
Theorem ping_relay_or_answer (self : GroupMember) (msg : Message)
    (sender target : string) (ctx : Context) :
  msg_type msg = "PING" → msg_target msg = Some target →
  if decide (target = _id self)
  then on_message self msg sender ctx
       = on_message self (without_target msg) sender ctx
       ∧ ∃ added removed,
           (on_message self msg sender ctx).2
           = [send (PING_ANSWER added removed
                      (_time (on_message self msg sender ctx).1)) sender]
  else on_message self msg sender ctx
       = (_merge_crdt_sample self (default ∅ (msg_added msg))
            (default ∅ (msg_removed msg)) (default 0 (msg_time msg)),
          [send msg target]).
Proof.
  intros Hty Htg. rewrite !on_message_PING by done. unfold _on_ping.
  cbn [without_target msg_added msg_removed msg_time msg_target].
  rewrite Htg, merge_id.
  destruct (decide (target = _id self)) as [->|Hne].
  - rewrite bool_decide_eq_false_2 by (intros H; by apply H). split; [done|].
    match goal with
    | |- context [_serialize_sample (random ctx) ?m] =>
        destruct (_serialize_sample (random ctx) m) as [a rnd1]
    end.
    match goal with
    | |- context [_serialize_sample rnd1 ?m] =>
        destruct (_serialize_sample rnd1 m) as [r rnd2]
    end.
    by exists a, r.
  - by rewrite bool_decide_eq_true_2.
Qed.

Lemma ping_relay_or_answer_witness :
  msg_type relayed_ping = "PING" ∧ msg_target relayed_ping = Some "c"
  ∧ on_message joined_a relayed_ping "b" (ctx_at 2)
    = (_merge_crdt_sample joined_a (sample1 "d" 4 4) ∅ 4,
       [send relayed_ping "c"]).
Proof.
  assert (H1 : msg_type relayed_ping = "PING") by reflexivity.
  assert (H2 : msg_target relayed_ping = Some "c") by reflexivity.
  exact (conj H1 (conj H2
    (ping_relay_or_answer joined_a relayed_ping "b" "c" (ctx_at 2) H1 H2))).
Defined.

(** ** Suspicion timers *)

(** The helpers of an indirect probe: distinct members of the cached active
    set other than the prober and the target, as many as there are up to
    [K]. *)
Lemma retransmitters_spec (self : GroupMember) (target : string)
    (order : list nat) :
  let candidates :=
    filter (λ p, p ≠ _id self ∧ p ≠ target) (set_iter order (_active self)) in
  let helpers := take (Nat.min Params.K (length candidates)) candidates in
  NoDup helpers
  ∧ length helpers
    = Nat.min Params.K (size (_active self ∖ {[_id self; target]}))
  ∧ ∀ h, h ∈ helpers → h ∈ _active self ∧ h ≠ _id self ∧ h ≠ target.
Proof.
  intros candidates helpers.
  assert (Hnd : NoDup candidates) by apply NoDup_filter, set_iter_NoDup.
  assert (Hin : ∀ h, h ∈ candidates
                     ↔ h ∈ _active self ∖ {[_id self; target]}).
  { intros h. unfold candidates.
    rewrite list_elem_of_filter, elem_of_set_iter. set_solver. }
  assert (Hperm : candidates ≡ₚ elements (_active self ∖ {[_id self; target]})).
  { apply NoDup_Permutation; [done|apply NoDup_elements|].
    intros h. by rewrite Hin, elem_of_elements. }
  assert (Hsub : helpers `sublist_of` candidates) by apply sublist_take.
  split; [by eapply sublist_NoDup|]. split.
  - unfold helpers. rewrite length_take, Hperm.
    change (size (_active self ∖ {[_id self; target]}))
      with (length (elements (_active self ∖ {[_id self; target]}))).
    lia.
  - intros h Hh. assert (h ∈ candidates) as Hc%Hin
      by (by eapply elem_of_sublist).
    set_solver.
Qed.

(** C7. When the timer ping_<target> fires on a target in state 1
    (AWAITING_DIRECT), the engine sets the state to 2 (AWAITING_INDIRECT),
    sends one and the same PING, built from samples of its registers, its
    watermark and the extra field target, to distinct helpers taken from
    the active set minus itself and the target, as many as there are up to
    K, and then re-arms the timer for T·S.  When it fires on a target in
    state 2, the engine runs [_mark_removed] for the target at the current
    time, erases the suspicion entry and makes no runtime call. *)
Theorem suspicion_timer_fire (self : GroupMember) (target : string)
    (ctx : Context) :
  (_waiting_answer self !! target = Some 1 →
   ∃ helpers added removed,
     on_timer self ("ping_" +:+ target) ctx
     = (set_waiting_answer self (<[target := 2]> (_waiting_answer self)),
        map (send (PING added removed (_time self) (Some target))) helpers
        ++ [set_timer ("ping_" +:+ target)
              (Params.T * inject_Z Params.S)%Q])
     ∧ NoDup helpers
     ∧ length helpers
       = Nat.min Params.K (size (_active self ∖ {[_id self; target]}))
     ∧ (∀ h, h ∈ helpers → h ∈ _active self ∧ h ≠ _id self ∧ h ≠ target)
     ∧ (∀ p e, added !! p = Some e →
               ∃ t, _added_members self !! p = Some t ∧ e = serialize_tag t)
     ∧ (∀ p e, removed !! p = Some e →
               ∃ t, _removed_members self !! p = Some t ∧ e = serialize_tag t))
  ∧ (_waiting_answer self !! target = Some 2 →
     on_timer self ("ping_" +:+ target) ctx
     = (set_waiting_answer (_mark_removed self target (time ctx))
          (delete target (_waiting_answer self)), [])).
Proof.
  destruct (ping_timer_name target) as [Hpre Hsuf].
  split; intros Hst; unfold on_timer; rewrite Hpre, Hsuf, Hst; cbn [default].
  - change (1 =? 1) with true. cbv iota.
    unfold _ping_with_retransmitters.
    cbn [set_waiting_answer _id _active _added_members _removed_members _time].
    pose proof (serialize_sample_sound (random ctx) (_added_members self)) as Ha.
    destruct (_serialize_sample (random ctx) (_added_members self))
      as [added rnd1].
    pose proof (serialize_sample_sound rnd1 (_removed_members self)) as Hr.
    destruct (_serialize_sample rnd1 (_removed_members self)) as [removed rnd2].
    destruct (retransmitters_spec self target (set_order ctx)) as (H1 & H2 & H3).
    eexists _, added, removed. split; [reflexivity|].
    split; [exact H1|]. split; [exact H2|]. split; [exact H3|].
    split; [exact Ha|exact Hr].
  - done.
Qed.

Lemma suspicion_timer_fire_witness :
  (_waiting_answer (probing_a 1) !! "c" = Some 1
   ∧ ∃ helpers added removed,
       on_timer (probing_a 1) "ping_c" (ctx_at 20)
       = (probing_a 2,
          map (send (PING added removed 4 (Some "c"))) helpers
          ++ [set_timer "ping_c" (Params.T * inject_Z Params.S)%Q])
       ∧ NoDup helpers ∧ length helpers = 2%nat)
  ∧ (_waiting_answer (probing_a 2) !! "c" = Some 2
     ∧ on_timer (probing_a 2) "ping_c" (ctx_at 20)
       = (set_waiting_answer (_mark_removed (probing_a 2) "c" 20)
            (delete "c" (_waiting_answer (probing_a 2))), [])).
Proof.
  assert (H1 : _waiting_answer (probing_a 1) !! "c" = Some 1) by reflexivity.
  assert (H2 : _waiting_answer (probing_a 2) !! "c" = Some 2) by reflexivity.
  split; split; try assumption.
  - destruct (proj1 (suspicion_timer_fire (probing_a 1) "c" (ctx_at 20)) H1)
      as (helpers & added & removed & Heq & Hnd & Hlen & _).
    exists helpers, added, removed. split; [|split].
    + exact Heq.
    + exact Hnd.
    + rewrite Hlen. vm_compute. reflexivity.
  - exact (proj2 (suspicion_timer_fire (probing_a 2) "c" (ctx_at 20)) H2).
Defined.

Example indirect_probe_of_c :
  ∃ added removed,
    on_timer (probing_a 1) "ping_c" (ctx_at 20)
    = (probing_a 2,
       [send (PING added removed 4 (Some "c")) "b";
        send (PING added removed 4 (Some "c")) "d";
        set_timer "ping_c" 15%Q]).
Proof. eexists _, _. vm_compute. reflexivity. Qed.

(** A timer ping_<peer> that fires while the entry of the peer is 0 finds
    neither state 1 nor state 2 and does nothing. *)
Lemma stale_timer_noop (self : GroupMember) (peer : string) (ctx : Context) :
  _waiting_answer self !! peer = Some 0 →
  on_timer self ("ping_" +:+ peer) ctx = (self, []).
Proof.
  intros H. destruct (ping_timer_name peer) as [Hpre Hsuf].
  unfold on_timer. by rewrite Hpre, Hsuf, H.
Qed.

Lemma mark_added_waiting_answer self p ts :
  _waiting_answer (_mark_added self p ts) = _waiting_answer self.
Proof. done. Qed.

(** ** Messages with missing fields *)

(** The message with its missing gossip fields filled in is handled as the
    message itself, up to the verbatim relay of an indirect PING. *)
Lemma handler_on_filled_message (self : GroupMember) (msg : Message)
    (sender : string) (ctx : Context) :
  (on_message self msg sender ctx).1
  = (on_message self (with_defaults msg) sender ctx).1
  ∧ _on_ping_answer self msg sender ctx
    = _on_ping_answer self (with_defaults msg) sender ctx.
Proof.
  split; [|done].
  unfold on_message, _on_ping. cbn [with_defaults msg_type].
  repeat case_bool_decide; try done.
  cbn [with_defaults msg_added msg_removed msg_time msg_target default
       from_option id].
  by destruct (msg_target msg) as [target|]; [case_bool_decide|].
Qed.

(** A merge with no [removed] sample runs the added loop only, and a merge
    with no [added] sample the removed loop only. *)
Lemma merge_one_sample (self : GroupMember) (sample : gmap string SampleEntry)
    (time_value : Z) (p : string) :
  key_state (_merge_crdt_sample self sample ∅ time_value) p
  = merge_added_key (entry_tag <$> sample !! p) (key_state self p)
  ∧ key_state (_merge_crdt_sample self ∅ sample time_value) p
    = merge_removed_key (entry_tag <$> sample !! p) (key_state self p).
Proof. rewrite !merge_key_state. unfold merge_key. by rewrite lookup_empty. Qed.

(** C8. A PING or PING_ANSWER is handled whichever of [added], [removed]
    and [time] it lacks.  The merge runs with an empty sample for a missing
    sample and with zero for a missing time: without [added] only the
    removed loop changes the registers, without [removed] only the added
    loop, without both the registers stay as they are, and without [time]
    the watermark becomes max(_time, 0).  The rest of the handler then runs
    on the merged state.  A PING with a target other than the receiver is
    relayed as it came.  Any other PING learns the sender (a first mark, a
    re-mark when a removed entry of at least the added generation is left,
    an insertion into the active set when both entries are left) and
    answers it with one PING_ANSWER that carries samples of the resulting
    registers and the resulting watermark.  A PING_ANSWER sets a positive
    suspicion entry of the sender to 0 and cancels ping_<sender>, marks a
    sender without an added entry, and puts the sender into the active set;
    it makes no other runtime call. *)
Theorem missing_fields_defaults (self : GroupMember) (msg : Message)
    (sender : string) (ctx : Context) :
  let merged :=
    _merge_crdt_sample self (default ∅ (msg_added msg))
      (default ∅ (msg_removed msg)) (default 0 (msg_time msg)) in
  (msg_added msg = None →
   ∀ p, key_state merged p
        = merge_removed_key (entry_tag <$> default ∅ (msg_removed msg) !! p)
            (key_state self p))
  ∧ (msg_removed msg = None →
     ∀ p, key_state merged p
          = merge_added_key (entry_tag <$> default ∅ (msg_added msg) !! p)
              (key_state self p))
  ∧ (msg_added msg = None → msg_removed msg = None →
     _added_members merged = _added_members self
     ∧ _removed_members merged = _removed_members self)
  ∧ (msg_time msg = None → _time merged = Z.max (_time self) 0)
  ∧ (msg_type msg = "PING" →
     ∀ target, msg_target msg = Some target → target ≠ _id self →
       on_message self msg sender ctx = (merged, [send msg target]))
  ∧ (msg_type msg = "PING" →
     msg_target msg = None ∨ msg_target msg = Some (_id self) →
     ∃ learned,
       match _added_members merged !! sender,
             _removed_members merged !! sender with
       | None, _ => learned = _mark_added merged sender (time ctx)
       | Some _, None => learned = merged
       | Some added_entry, Some removed_entry =>
           let marked :=
             if removed_entry.2 >=? added_entry.2
             then _mark_added merged sender (time ctx) else merged in
           learned = set_active marked ({[sender]} ∪ _active marked)
       end
       ∧ on_message self msg sender ctx
         = (learned,
            [send (PING_ANSWER
                     (_serialize_sample (random ctx)
                        (_added_members learned)).1
                     (_serialize_sample
                        (_serialize_sample (random ctx)
                           (_added_members learned)).2
                        (_removed_members learned)).1
                     (_time learned)) sender]))
  ∧ (msg_type msg = "PING_ANSWER" →
     let suspected :=
       bool_decide (0 < default 0 (_waiting_answer self !! sender)) in
     let cleared :=
       if suspected
       then set_waiting_answer merged (<[sender := 0]> (_waiting_answer self))
       else merged in
     let learned :=
       match _added_members merged !! sender with
       | None => _mark_added cleared sender (time ctx)
       | Some _ => cleared
       end in
     on_message self msg sender ctx
     = (set_active learned ({[sender]} ∪ _active learned),
        if suspected then [cancel_timer ("ping_" +:+ sender)] else [])).
Proof.
  intros merged.
  assert (Hadd : msg_added msg = None →
                 ∀ p, key_state merged p
                      = merge_removed_key
                          (entry_tag <$> default ∅ (msg_removed msg) !! p)
                          (key_state self p)).
  { intros Ha p. unfold merged. rewrite Ha. apply merge_one_sample. }
  assert (Hrem : msg_removed msg = None →
                 ∀ p, key_state merged p
                      = merge_added_key
                          (entry_tag <$> default ∅ (msg_added msg) !! p)
                          (key_state self p)).
  { intros Hr p. unfold merged. rewrite Hr. apply merge_one_sample. }
  split; [exact Hadd|]. split; [exact Hrem|]. split; [|split; [|split; [|split]]].
  - intros Ha Hr.
    assert (Hkey : ∀ p, key_state merged p = key_state self p).
    { intros p. rewrite (Hadd Ha p), Hr. cbn [default from_option id].
      by rewrite lookup_empty. }
    split; apply map_eq; intros p.
    + exact (f_equal fst (Hkey p)).
    + exact (f_equal snd (Hkey p)).
  - intros Ht. unfold merged. rewrite Ht. apply merge_frame.
  - intros Hty target Htg Hne. rewrite on_message_PING by done.
    unfold _on_ping. rewrite Htg, merge_id.
    by rewrite bool_decide_eq_true_2.
  - intros Hty Htg. rewrite on_message_PING by done. unfold _on_ping.
    fold merged.
    assert (Hrelay : match msg_target msg with
                     | Some target =>
                         if bool_decide (target ≠ _id merged)
                         then Some target else None
                     | None => None
                     end = None).
    { destruct Htg as [->| ->]; [done|]. unfold merged. rewrite merge_id.
      by rewrite bool_decide_eq_false_2 by (intros H; by apply H). }
    rewrite Hrelay.
    match goal with
    | |- context [_serialize_sample (random ctx) (_added_members ?s)] =>
        exists s
    end.
    split.
    + destruct (_added_members merged !! sender) as [added_entry|]; [|done].
      by destruct (_removed_members merged !! sender).
    + match goal with
      | |- context [_serialize_sample (random ctx) ?m] =>
          destruct (_serialize_sample (random ctx) m) as [a rnd1]
      end.
      cbn [fst snd].
      match goal with
      | |- context [_serialize_sample rnd1 ?m] =>
          destruct (_serialize_sample rnd1 m) as [r rnd2]
      end.
      done.
  - intros Hty suspected cleared learned.
    rewrite on_message_PING_ANSWER by done. unfold _on_ping_answer.
    fold merged. unfold learned, cleared, suspected.
    rewrite (merge_waiting_answer self _ _ _ : _waiting_answer merged = _).
    rewrite Z.gtb_ltb.
    destruct (Z.ltb_spec 0 (default 0 (_waiting_answer self !! sender)))
      as [Hpos|Hnpos].
    + rewrite bool_decide_eq_true_2 by done. reflexivity.
    + rewrite bool_decide_eq_false_2 by lia. reflexivity.
Qed.

Lemma missing_fields_defaults_witness :
  msg_type (bare "PING_ANSWER") = "PING_ANSWER"
  ∧ on_message (probing_a 1) (bare "PING_ANSWER") "c" (ctx_at 7)
    = (probing_a 0, [cancel_timer "ping_c"]).
Proof.
  assert (H : msg_type (bare "PING_ANSWER") = "PING_ANSWER") by reflexivity.
  exact (conj H (proj2 (proj2 (proj2 (proj2 (proj2 (proj2
    (missing_fields_defaults (probing_a 1) (bare "PING_ANSWER") "c"
       (ctx_at 7))))))) H)).
Defined.

Example bare_ping_is_answered :
  on_message (__init__ "a") (bare "PING") "b" (ctx_at 3)
  = ({| _id := "a"; _joined := false; _time := 1;
        _added_members := {[ "b" := (3%Q, 1) ]}; _removed_members := ∅;
        _waiting_answer := ∅; _active := {[ "b" ]}; _generation := 1 |},
     [send (PING_ANSWER (sample1 "b" 3 1) ∅ 1) "b"]).
Proof. vm_compute. reflexivity. Qed.

(** ** The order in which a sample is iterated *)

Lemma loop_in_order_spec
    (item : string → SampleEntry → GroupMember → GroupMember)
    (key : option Tag → option Tag * option Tag → option Tag * option Tag)
    (items : list (string * SampleEntry)) (self : GroupMember) :
  (∀ ar, key None ar = ar) →
  (∀ i x s, same_frame s (item i x s)) →
  (∀ i x s,
     key_state (item i x s) i = key (Some (entry_tag x)) (key_state s i)) →
  (∀ i x s p, p ≠ i → key_state (item i x s) p = key_state s p) →
  NoDup items.*1 →
  same_frame self (loop_in_order item self items)
  ∧ ∀ p, key_state (loop_in_order item self items) p
         = key (entry_tag <$> (list_to_map items : gmap string SampleEntry) !! p)
               (key_state self p).
Proof.
  intros Hnone Hframe Heq Hne. revert self.
  induction items as [|[i x] items IH]; intros self Hnd.
  - split; [apply same_frame_refl|]. intros p. simpl.
    by rewrite lookup_empty, Hnone.
  - apply NoDup_cons in Hnd as [Hi Hnd].
    destruct (IH (item i x self) Hnd) as [Hfr Hks]. split.
    + eapply same_frame_trans; [apply Hframe|exact Hfr].
    + intros p. cbn [loop_in_order foldl fst snd list_to_map foldr uncurry].
      fold (loop_in_order item (item i x self) items). rewrite Hks.
      destruct (decide (p = i)) as [->|Hpi].
      * rewrite lookup_insert_eq, (not_elem_of_list_to_map_1 _ _ Hi).
        cbn [fmap option_fmap option_map]. by rewrite Hnone, Heq.
      * by rewrite lookup_insert_ne, Hne.
Qed.

(** Whatever the order in which the items of a sample are visited, a merge
    loop ends in the state that [map_fold] computes. *)
Lemma merge_loop_any_order
    (item : string → SampleEntry → GroupMember → GroupMember)
    (key : option Tag → option Tag * option Tag → option Tag * option Tag)
    (items : list (string * SampleEntry)) (sample : gmap string SampleEntry)
    (self : GroupMember) :
  (∀ ar, key None ar = ar) →
  (∀ i x s, same_frame s (item i x s)) →
  (∀ i x s,
     key_state (item i x s) i = key (Some (entry_tag x)) (key_state s i)) →
  (∀ i x s p, p ≠ i → key_state (item i x s) p = key_state s p) →
  items ≡ₚ map_to_list sample →
  loop_in_order item self items = map_fold item self sample.
Proof.
  intros Hnone Hframe Heq Hne Hperm.
  assert (Hnd : NoDup items.*1).
  { rewrite Hperm. apply NoDup_fst_map_to_list. }
  destruct (loop_in_order_spec item key items self) as [Hf1 Hk1]; try done.
  destruct (merge_loop_spec item key self sample) as [Hf2 Hk2]; try done.
  assert (Hmap : (list_to_map items : gmap string SampleEntry) = sample).
  { rewrite (list_to_map_proper _ _ Hnd Hperm). apply list_to_map_to_list. }
  destruct Hf1 as (?&?&?&?&?&?), Hf2 as (?&?&?&?&?&?).
  apply GroupMember_eq; [congruence..|].
  intros p. by rewrite Hk1, Hk2, Hmap.
Qed.

Lemma merge_any_iteration_order (self : GroupMember)
    (added_sample removed_sample : gmap string SampleEntry) (time_value : Z)
    (added_items removed_items : list (string * SampleEntry)) :
  added_items ≡ₚ map_to_list added_sample →
  removed_items ≡ₚ map_to_list removed_sample →
  let self1 := set_time self (Z.max (_time self) time_value) in
  let self2 := loop_in_order merge_added_item self1 added_items in
  let self3 := loop_in_order merge_removed_item self2 removed_items in
  set_active self3 (_get_active_members self3)
  = _merge_crdt_sample self added_sample removed_sample time_value.
Proof.
  intros Ha Hr. cbv zeta. unfold _merge_crdt_sample.
  rewrite (merge_loop_any_order merge_added_item merge_added_key
             added_items added_sample);
    auto using merge_added_item_frame, merge_added_item_eq, merge_added_item_ne.
  rewrite (merge_loop_any_order merge_removed_item merge_removed_key
             removed_items removed_sample);
    auto using merge_removed_item_frame, merge_removed_item_eq,
               merge_removed_item_ne.
Qed.

(** ** The order in which the added register is iterated *)

Lemma elem_of_active_in_order (removed : gmap string Tag)
    (items : list (string * Tag)) (acc : gset string) (p : string) :
  p ∈ foldl (λ active kv, active_step removed kv.1 kv.2 active) acc items
  ↔ p ∈ acc
    ∨ ∃ added_entry, (p, added_entry) ∈ items
                     ∧ active_key (Some added_entry) (removed !! p) = true.
Proof.
  revert acc. induction items as [|[i x] items IH]; intros acc.
  - simpl. split; [by left|]. intros [?|(? & []%elem_of_nil & _)]. done.
  - cbn [foldl fst snd]. rewrite IH. unfold active_step. split.
    + intros [Hp|(ae & Hin & Hact)].
      * destruct (removed !! i) as [re|] eqn:Hr.
        -- destruct (x.2 >? re.2) eqn:Hgt; [|by left].
           apply elem_of_union in Hp as [->%elem_of_singleton|]; [|by left].
           right. exists x. split; [left|]. simpl. by rewrite Hr.
        -- apply elem_of_union in Hp as [->%elem_of_singleton|]; [|by left].
           right. exists x. split; [left|]. simpl. by rewrite Hr.
      * right. exists ae. split; [by right|done].
    + intros [Hp|(ae & Hin & Hact)].
      * left. destruct (removed !! i) as [re|]; [destruct (x.2 >? re.2)|];
          set_solver.
      * apply elem_of_cons in Hin as [[= -> ->]|Hin].
        -- left. simpl in Hact.
           destruct (removed !! i) as [re|]; [rewrite Hact|]; set_solver.
        -- right. by exists ae.
Qed.

(** Whatever the order in which the keys of [_added_members] are visited,
    the loop of [_get_active_members] builds the same set. *)
Lemma get_active_any_iteration_order (self : GroupMember)
    (items : list (string * Tag)) :
  items ≡ₚ map_to_list (_added_members self) →
  active_in_order (_removed_members self) items = _get_active_members self.
Proof.
  intros Hperm. apply set_eq. intros p. unfold active_in_order.
  rewrite elem_of_active_in_order, elem_of_get_active_members. split.
  - intros [[]%elem_of_empty|(ae & Hin & Hact)].
    rewrite Hperm in Hin. apply elem_of_map_to_list in Hin. by rewrite Hin.
  - intros Hact. right.
    destruct (_added_members self !! p) as [ae|] eqn:Ha; [|done].
    exists ae. split; [|done]. rewrite Hperm. by apply elem_of_map_to_list.
Qed.

(** ** A cleared suspicion *)

(** Messages and local commands leave a cleared suspicion entry cleared. *)
Lemma deliver_keeps_cleared (self : GroupMember) (peer : string) (ev : Event)
    (res : GroupMember * list Action) :
  _waiting_answer self !! peer = Some 0 →
  is_timer ev = false → deliver self ev = Some res →
  _waiting_answer res.1 !! peer = Some 0.
Proof.
  intros Hw Hev. destruct ev as [msg ctx|msg sender ctx|name ctx]; [| |done].
  - cbn [deliver]. unfold on_local_message, _create_group, _join_group,
      _leave_group.
    handler_cases; intros [= <-]; done.
  - cbn [deliver]. intros [= <-]. unfold on_message, _on_ping, _on_ping_answer.
    repeat case_bool_decide; [| |done].
    + handler_cases; cbn [fst set_active _waiting_answer];
        rewrite ?mark_added_waiting_answer, merge_waiting_answer; done.
    + rewrite merge_waiting_answer.
      destruct (decide (sender = peer)) as [->|Hne].
      * rewrite Hw. cbn [default from_option id]. change (0 >? 0) with false.
        cbv iota.
        handler_cases; cbn [fst set_active _waiting_answer];
          rewrite ?mark_added_waiting_answer, merge_waiting_answer; done.
      * destruct (_ >? 0);
          handler_cases; cbn [fst set_active set_waiting_answer _waiting_answer];
          rewrite ?mark_added_waiting_answer;
          cbn [set_waiting_answer _waiting_answer];
          rewrite ?merge_waiting_answer, ?lookup_insert_ne; done.
Qed.

Lemma ping_timer_name_inj (target peer : string) :
  "ping_" +:+ target = "ping_" +:+ peer → target = peer.
Proof. intros H. by simplify_eq/=. Qed.

(** A firing of any timer leaves a cleared suspicion entry cleared, unless
    it is the periodic timer and starts a probe of the peer, which arms
    ping_<peer>. *)
Lemma on_timer_keeps_cleared (self : GroupMember) (peer timer_name : string)
    (ctx : Context) :
  _waiting_answer self !! peer = Some 0 →
  existsb (arms ("ping_" +:+ peer)) (on_timer self timer_name ctx).2 = false →
  _waiting_answer (on_timer self timer_name ctx).1 !! peer = Some 0.
Proof.
  intros Hw. unfold on_timer.
  destruct (String.prefix "ping_" timer_name).
  - set (target := String.substring _ _ _).
    destruct (decide (target = peer)) as [->|Hne].
    + rewrite Hw. cbn [default from_option id]. done.
    + intros _.
      destruct (default 0 (_waiting_answer self !! target) =? 1);
        [|destruct (default 0 (_waiting_answer self !! target) =? 2)];
        cbn [fst set_waiting_answer _waiting_answer _mark_removed];
        rewrite ?lookup_insert_ne, ?lookup_delete_ne; done.
  - case_bool_decide; [|done]. unfold _periodic_ping.
    destruct (negb (_joined self) || bool_decide (_active self = ∅)); [done|].
    destruct (filter _ _) as [|c candidates]; [done|].
    destruct (random_choice _ _ _) as [target rnd1].
    destruct (_serialize_sample rnd1 _) as [added rnd2].
    destruct (_serialize_sample rnd2 _) as [removed rnd3].
    cbn [fst snd existsb arms set_waiting_answer _waiting_answer].
    case_bool_decide as Harm; [done|]. intros _.
    rewrite lookup_insert_ne; [done|]. intros ->. by apply Harm.
Qed.

(** Any callback leaves a cleared suspicion entry cleared, unless it arms
    ping_<peer>. *)
Lemma deliver_keeps_cleared_unless_armed (self : GroupMember) (peer : string)
    (ev : Event) (res : GroupMember * list Action) :
  _waiting_answer self !! peer = Some 0 →
  deliver self ev = Some res →
  existsb (arms ("ping_" +:+ peer)) res.2 = false →
  _waiting_answer res.1 !! peer = Some 0.
Proof.
  intros Hw Hd Harm. destruct (is_timer ev) eqn:Hev.
  - destruct ev as [| |timer_name ctx]; [done..|].
    cbn [deliver] in Hd. injection Hd as <-.
    by apply on_timer_keeps_cleared.
  - by eapply deliver_keeps_cleared.
Qed.

Lemma bootstrap_pings_arm_nothing (timer_name : string) (self : GroupMember)
    (seed : string) (rounds : nat) (rnd : list nat) :
  existsb (arms timer_name) (bootstrap_pings self seed rounds rnd) = false.
Proof.
  revert rnd. induction rounds as [|rounds IH]; intros rnd; [done|].
  cbn [bootstrap_pings].
  destruct (_serialize_sample rnd _) as [added rnd1].
  destruct (_serialize_sample rnd1 _) as [removed rnd2].
  cbn [existsb arms]. apply IH.
Qed.

Lemma sends_arm_nothing (timer_name : string) (msg : Message)
    (dests : list string) :
  existsb (arms timer_name) (map (λ dest, send msg dest) dests) = false.
Proof. by induction dests. Qed.

(** Local commands and network messages arm no suspicion timer. *)
Lemma only_timers_arm (self : GroupMember) (peer : string) (ev : Event)
    (res : GroupMember * list Action) :
  is_timer ev = false → deliver self ev = Some res →
  existsb (arms ("ping_" +:+ peer)) res.2 = false.
Proof.
  intros Hev. destruct ev as [msg ctx|msg sender ctx|]; [| |done].
  - cbn [deliver]. unfold on_local_message.
    repeat case_bool_decide; try (by intros [= <-]).
    + destruct (msg_seed msg) as [seed|]; [|done].
      case_bool_decide; intros [= <-]; [done|]. unfold _join_group.
      destruct (_joined self); [done|]. cbn [snd].
      by rewrite existsb_app, bootstrap_pings_arm_nothing.
    + intros [= <-]. unfold _leave_group. by destruct (negb (_joined self)).
  - cbn [deliver]. intros [= <-]. unfold on_message, _on_ping, _on_ping_answer.
    repeat case_bool_decide; [| |done].
    + handler_cases; done.
    + by destruct (_ >? 0).
Qed.

(** From a cleared entry, the callback that arms ping_<peer> is a firing
    of the periodic timer in which the engine starts a new probe of the
    peer. *)
Lemma arms_is_new_probe (self : GroupMember) (peer : string) (ev : Event)
    (res : GroupMember * list Action) :
  _waiting_answer self !! peer = Some 0 →
  deliver self ev = Some res →
  existsb (arms ("ping_" +:+ peer)) res.2 = true →
  (∃ ctx, ev = TimerFired "periodic_ping" ctx)
  ∧ _waiting_answer res.1 !! peer = Some 1.
Proof.
  intros Hw Hd Harm. destruct (is_timer ev) eqn:Hev;
    [|by rewrite (only_timers_arm _ _ _ _ Hev Hd) in Harm].
  destruct ev as [| |timer_name ctx]; [done..|].
  revert Hd Harm. cbn [deliver]. intros [= <-]. unfold on_timer.
  destruct (String.prefix "ping_" timer_name) eqn:Hpre.
  - set (target := String.substring _ _ _).
    destruct (decide (target = peer)) as [->|Hne].
    + rewrite Hw. cbn [default from_option id]. done.
    + destruct (default 0 (_waiting_answer self !! target) =? 1) eqn:H1;
        [|by destruct (default 0 (_waiting_answer self !! target) =? 2)].
      cbn [snd]. rewrite existsb_app. cbn [existsb arms].
      unfold _ping_with_retransmitters.
      destruct (_serialize_sample (random ctx) _) as [added rnd1].
      destruct (_serialize_sample rnd1 _) as [removed rnd2].
      rewrite sends_arm_nothing, orb_false_l, orb_false_r.
      intros Heq%bool_decide_eq_true. subst timer_name. exfalso.
      apply Hne. unfold target. apply ping_timer_name.
  - case_bool_decide as Hname; [|done]. subst timer_name.
    split; [by exists ctx|]. revert Harm. unfold _periodic_ping.
    destruct (negb (_joined self) || bool_decide (_active self = ∅)); [done|].
    destruct (filter _ _) as [|c candidates]; [done|].
    destruct (random_choice _ _ _) as [target rnd1].
    destruct (_serialize_sample rnd1 _) as [added rnd2].
    destruct (_serialize_sample rnd2 _) as [removed rnd3].
    cbn [fst snd existsb arms set_waiting_answer _waiting_answer].
    case_bool_decide as Harm; [|done]. intros _.
    apply ping_timer_name_inj in Harm as ->. by rewrite lookup_insert_eq.
Qed.

(** A run without timer firings arms no suspicion timer. *)
Lemma messages_never_arm (evs : list Event) (self : GroupMember)
    (peer : string) :
  forallb (λ ev, negb (is_timer ev)) evs = true →
  never_arms ("ping_" +:+ peer) self evs = true.
Proof.
  revert self. induction evs as [|ev evs IH]; intros self Hevs; [done|].
  simpl in Hevs. apply andb_prop in Hevs as [Hev Hevs].
  apply negb_true_iff in Hev. cbn [never_arms].
  destruct (deliver self ev) as [[s1 acts]|] eqn:Hd; [|done].
  pose proof (only_timers_arm _ peer _ _ Hev Hd) as Harm.
  cbn [snd] in Harm. by rewrite Harm, IH.
Qed.

Lemma run_keeps_cleared (evs : list Event) (self self' : GroupMember)
    (peer : string) :
  _waiting_answer self !! peer = Some 0 →
  never_arms ("ping_" +:+ peer) self evs = true →
  run self evs = Some self' →
  _waiting_answer self' !! peer = Some 0.
Proof.
  revert self. induction evs as [|ev evs IH]; intros self Hw Hevs; simpl.
  - by intros [= <-].
  - simpl in Hevs.
    destruct (deliver self ev) as [[s1 acts]|] eqn:Hd; [|done].
    apply andb_prop in Hevs as [Hev Hevs]. apply negb_true_iff in Hev.
    apply IH; [|done].
    exact (deliver_keeps_cleared_unless_armed _ _ _ _ Hw Hd Hev).
Qed.

(** C9. A PING_ANSWER from a peer whose suspicion entry is positive sets
    the entry to 0 and keeps it in the map.  Whatever callbacks follow,
    network messages, local commands and firings of any timers, the entry
    is still 0 as long as none of them arms ping_<peer> again, that is, as
    long as no periodic ping starts a new probe of the peer; a firing of
    ping_<peer> then changes nothing and makes no runtime call: the peer is
    neither moved to AWAITING_INDIRECT nor marked removed. *)
Theorem cleared_suspicion_timer_noop (self self' : GroupMember)
    (msg : Message) (peer : string) (ctx ctx' : Context) (evs : list Event) :
  msg_type msg = "PING_ANSWER" →
  0 < default 0 (_waiting_answer self !! peer) →
  never_arms ("ping_" +:+ peer) (on_message self msg peer ctx).1 evs = true →
  run (on_message self msg peer ctx).1 evs = Some self' →
  _waiting_answer (on_message self msg peer ctx).1 !! peer = Some 0
  ∧ _waiting_answer self' !! peer = Some 0
  ∧ on_timer self' ("ping_" +:+ peer) ctx' = (self', []).
Proof.
  intros Hty Hpos Hevs Hrun.
  assert (Hw : _waiting_answer (on_message self msg peer ctx).1 !! peer
               = Some 0).
  { rewrite on_message_PING_ANSWER by done. unfold _on_ping_answer.
    rewrite merge_waiting_answer.
    rewrite (proj2 (Z.gtb_gt _ _)) by lia.
    cbn [set_waiting_answer _added_members _waiting_answer].
    match goal with
    | |- context [match ?o with Some _ => _ | None => _ end] => destruct o
    end; cbn [fst set_active _waiting_answer];
      rewrite ?mark_added_waiting_answer; cbn [set_waiting_answer _waiting_answer];
      by rewrite lookup_insert_eq. }
  pose proof (run_keeps_cleared evs _ _ peer Hw Hevs Hrun) as Hw'.
  split; [exact Hw|]. split; [exact Hw'|].
  exact (stale_timer_noop _ _ ctx' Hw').
Qed.

Lemma cleared_suspicion_timer_noop_witness :
  msg_type empty_answer = "PING_ANSWER"
  ∧ 0 < default 0 (_waiting_answer (probing_a 1) !! "c")
  ∧ never_arms "ping_c" (on_message (probing_a 1) empty_answer "c" (ctx_at 7)).1
      later_events = true
  ∧ run (on_message (probing_a 1) empty_answer "c" (ctx_at 7)).1 later_events
    = Some after_later_events
  ∧ _waiting_answer after_later_events !! "c" = Some 0
  ∧ on_timer after_later_events "ping_c" (ctx_at 41)
    = (after_later_events, []).
Proof.
  assert (H1 : msg_type empty_answer = "PING_ANSWER") by reflexivity.
  assert (H2 : 0 < default 0 (_waiting_answer (probing_a 1) !! "c"))
    by reflexivity.
  assert (H3 : never_arms "ping_c"
                 (on_message (probing_a 1) empty_answer "c" (ctx_at 7)).1
                 later_events = true)
    by (vm_compute; reflexivity).
  assert (H4 : run (on_message (probing_a 1) empty_answer "c" (ctx_at 7)).1
                 later_events = Some after_later_events)
    by (vm_compute; reflexivity).
  exact (conj H1 (conj H2 (conj H3 (conj H4 (proj2
    (cleared_suspicion_timer_noop (probing_a 1) after_later_events
       empty_answer "c" (ctx_at 7) (ctx_at 41) later_events
       H1 H2 H3 H4)))))).
Defined.

(** ** Counters along a run *)

(** Reduce the scalar fields of a state built by marks, setters and
    merges. *)
Ltac scalar_fields :=
  repeat first
    [ progress cbn [fst snd _id _joined _time _generation _waiting_answer
                    _mark_added _mark_removed set_active set_waiting_answer
                    set_joined set_registers set_time] in *
    | rewrite (proj1 (merge_frame _ _ _ _)) in *
    | rewrite (proj1 (proj2 (merge_frame _ _ _ _))) in *
    | rewrite (proj1 (proj2 (proj2 (merge_frame _ _ _ _)))) in *
    | rewrite (proj1 (proj2 (proj2 (proj2 (merge_frame _ _ _ _))))) in *
    | rewrite (proj1 (proj2 (proj2 (proj2 (proj2 (merge_frame _ _ _ _)))))) in * ].

Lemma deliver_counters (self : GroupMember) (ev : Event)
    (res : GroupMember * list Action) :
  counters_ok self → deliver self ev = Some res →
  counters_ok res.1
  ∧ _generation self ≤ _generation res.1 ∧ _time self ≤ _time res.1.
Proof.
  unfold counters_ok. intros [H0 H1].
  destruct ev as [msg ctx|msg sender ctx|timer_name ctx]; cbn [deliver].
  - unfold on_local_message, _create_group, _join_group, _leave_group.
    handler_cases; intros [= <-]; scalar_fields; lia.
  - intros [= <-]. unfold on_message, _on_ping, _on_ping_answer.
    handler_cases; scalar_fields; lia.
  - intros [= <-]. unfold on_timer, _periodic_ping.
    handler_cases; scalar_fields; lia.
Qed.

Lemma run_counters (evs : list Event) (self self' : GroupMember) :
  counters_ok self → run self evs = Some self' →
  counters_ok self'
  ∧ _generation self ≤ _generation self' ∧ _time self ≤ _time self'.
Proof.
  revert self. induction evs as [|ev evs IH]; intros self Hok; simpl.
  - intros [= <-]. split; [done|lia].
  - destruct (deliver self ev) as [[s1 acts]|] eqn:Hd; [|done]. intros Hrun.
    destruct (deliver_counters _ _ _ Hok Hd) as (Hok1 & Hg & Ht).
    destruct (IH s1 Hok1 Hrun) as (Hok' & Hg' & Ht'). cbn [fst] in *.
    split; [done|lia].
Qed.

(** ** The suspicion map along a run *)

Lemma random_choice_elem {A} (rnd : list nat) (seq : list A) (d : A) :
  seq ≠ [] → (random_choice rnd seq d).1 ∈ seq.
Proof.
  intros Hne. unfold random_choice. destruct (draw rnd) as [n rnd'].
  cbn [fst].
  assert (Hlt : (n mod length seq < length seq)%nat).
  { apply Nat.mod_upper_bound. by destruct seq. }
  destruct (lookup_lt_is_Some_2 _ _ Hlt) as [y Hy].
  rewrite (nth_lookup_Some _ _ _ _ Hy). by eapply list_elem_of_lookup_2.
Qed.

Lemma deliver_id (self : GroupMember) (ev : Event)
    (res : GroupMember * list Action) :
  deliver self ev = Some res → _id res.1 = _id self.
Proof.
  destruct ev as [msg ctx|msg sender ctx|timer_name ctx]; cbn [deliver].
  - unfold on_local_message, _create_group, _join_group, _leave_group.
    handler_cases; intros [= <-]; scalar_fields; done.
  - intros [= <-]. unfold on_message, _on_ping, _on_ping_answer.
    handler_cases; scalar_fields; done.
  - intros [= <-]. unfold on_timer, _periodic_ping.
    handler_cases; scalar_fields; done.
Qed.

(** The five ways in which one callback can leave the suspicion map: as it
    was; with the entry of a suspected sender cleared to 0 (a PING_ANSWER);
    with an entry moved from 1 to 2 or an entry of 2 erased (a suspicion
    timer); with the entry of a probe target, an active process other than
    the engine, set to 1 (the probe timer). *)
Lemma deliver_waiting_cases (self : GroupMember) (ev : Event)
    (res : GroupMember * list Action) :
  deliver self ev = Some res →
  _waiting_answer res.1 = _waiting_answer self
  ∨ (∃ sender, 0 < default 0 (_waiting_answer self !! sender)
               ∧ _waiting_answer res.1 = <[sender := 0]> (_waiting_answer self))
  ∨ (∃ target, _waiting_answer self !! target = Some 1
               ∧ _waiting_answer res.1 = <[target := 2]> (_waiting_answer self))
  ∨ (∃ target, _waiting_answer self !! target = Some 2
               ∧ _waiting_answer res.1 = delete target (_waiting_answer self))
  ∨ (∃ target, target ∈ _active self ∧ target ≠ _id self
               ∧ _waiting_answer res.1 = <[target := 1]> (_waiting_answer self)).
Proof.
  destruct ev as [msg ctx|msg sender ctx|timer_name ctx]; cbn [deliver].
  - unfold on_local_message, _create_group, _join_group, _leave_group.
    handler_cases; intros [= <-]; left; scalar_fields; done.
  - intros [= <-]. unfold on_message, _on_ping, _on_ping_answer.
    repeat case_bool_decide; [| |by left].
    + left. handler_cases; scalar_fields; done.
    + rewrite merge_waiting_answer.
      destruct (Z.gtb_spec (default 0 (_waiting_answer self !! sender)) 0).
      * right; left. exists sender. split; [lia|].
        handler_cases; scalar_fields; done.
      * left. handler_cases; scalar_fields; done.
  - intros [= <-]. unfold on_timer.
    destruct (String.prefix "ping_" timer_name).
    + set (target := String.substring _ _ _).
      destruct (_waiting_answer self !! target) as [status|] eqn:Hst;
        cbn [default from_option id]; [|by left].
      destruct (Z.eqb_spec status 1) as [->|_].
      { right; right; left. by exists target. }
      destruct (Z.eqb_spec status 2) as [->|_]; [|by left].
      right; right; right; left. by exists target.
    + case_bool_decide; [|by left]. unfold _periodic_ping.
      destruct (negb (_joined self) || bool_decide (_active self = ∅));
        [by left|].
      set (candidates := filter _ _).
      destruct candidates as [|c cs] eqn:Hc; [by left|].
      pose proof (random_choice_elem (random ctx) (c :: cs) c) as Hin.
      destruct (random_choice (random ctx) (c :: cs) c) as [target rnd1].
      cbn [fst] in Hin. specialize (Hin ltac:(done)).
      rewrite <- Hc in Hin. unfold candidates in Hin.
      apply list_elem_of_filter in Hin as [Hne Hin].
      apply elem_of_set_iter in Hin.
      right; right; right; right. exists target.
      split; [done|]. split; [done|].
      handler_cases; scalar_fields; done.
Qed.

(** ** The cached active set along a run *)

Lemma mark_added_entry self q ts :
  _added_members (_mark_added self q ts) !! q = Some (ts, _generation self + 1).
Proof. apply lookup_insert_eq. Qed.

Lemma mark_added_has_entry self q ts :
  active_has_entry self → active_has_entry (_mark_added self q ts).
Proof.
  intros H p Hp. cbn [_mark_added _active _added_members] in *.
  destruct (decide (p = q)) as [->|Hne]; [by rewrite lookup_insert_eq|].
  rewrite lookup_insert_ne by done. apply H. set_solver.
Qed.

Lemma mark_removed_has_entry self q ts :
  active_has_entry self → active_has_entry (_mark_removed self q ts).
Proof.
  intros H p Hp. cbn [_mark_removed _active _added_members] in *.
  apply elem_of_difference in Hp as [Hp Hne%not_elem_of_singleton].
  specialize (H p Hp).
  destruct (_added_members self !! q) as [ae|]; [|done].
  destruct (_ >? ae.2); [by rewrite lookup_delete_ne|done].
Qed.

Lemma merge_has_entry self a r t :
  active_has_entry (_merge_crdt_sample self a r t).
Proof.
  intros p Hp.
  rewrite (proj2 (proj2 (proj2 (proj2 (proj2 (merge_frame self a r t)))))) in Hp.
  apply elem_of_get_active_members in Hp.
  by destruct (_added_members _ !! p).
Qed.

Lemma add_active_has_entry self x :
  active_has_entry self → is_Some (_added_members self !! x) →
  active_has_entry (set_active self ({[x]} ∪ _active self)).
Proof.
  intros H Hx p Hp. cbn [set_active _active _added_members] in *.
  apply elem_of_union in Hp as [->%elem_of_singleton|Hp]; [done|by apply H].
Qed.

Lemma discard_active_has_entry self x :
  active_has_entry self →
  active_has_entry (set_active self (_active self ∖ {[x]})).
Proof.
  intros H p Hp. cbn [set_active _active _added_members] in *.
  apply H. set_solver.
Qed.

Lemma set_waiting_answer_has_entry self w :
  active_has_entry self → active_has_entry (set_waiting_answer self w).
Proof. done. Qed.

Lemma set_joined_has_entry self j :
  active_has_entry self → active_has_entry (set_joined self j).
Proof. done. Qed.

Lemma mark_added_is_Some self q ts :
  is_Some (_added_members (_mark_added self q ts) !! q).
Proof. rewrite mark_added_entry. by eexists. Qed.

(** [handler_cases] that remembers what each test found. *)
Ltac handler_cases_eqn :=
  repeat match goal with
    | |- context [if ?b then _ else _] => destruct b eqn:?
    | |- context [match ?o with Some _ => _ | None => _ end] => destruct o eqn:?
    | |- context [match ?l with [] => _ | _ :: _ => _ end] => destruct l eqn:?
    | |- context [let '(_, _) := ?e in _] => destruct e eqn:?
    end.

Lemma deliver_has_entry (self : GroupMember) (ev : Event)
    (res : GroupMember * list Action) :
  active_has_entry self → deliver self ev = Some res →
  active_has_entry res.1.
Proof.
  intros H.
  destruct ev as [msg ctx|msg sender ctx|timer_name ctx]; cbn [deliver].
  - unfold on_local_message, _create_group, _join_group, _leave_group.
    handler_cases_eqn; intros [= <-]; cbn [fst];
      eauto 8 using mark_added_has_entry, mark_removed_has_entry,
        add_active_has_entry, discard_active_has_entry,
        set_joined_has_entry, mark_added_is_Some.
  - intros [= <-]. unfold on_message, _on_ping, _on_ping_answer.
    handler_cases_eqn; cbn [fst]; simplify_eq;
      eauto 8 using mark_added_has_entry, merge_has_entry,
        add_active_has_entry, set_waiting_answer_has_entry,
        mark_added_is_Some, mk_is_Some.
  - intros [= <-]. unfold on_timer, _periodic_ping.
    handler_cases_eqn; cbn [fst];
      eauto 8 using mark_removed_has_entry, set_waiting_answer_has_entry.
Qed.

(** ** Invariants of every run *)

Lemma init_counters_ok proc_id : counters_ok (__init__ proc_id).
Proof. by split. Qed.

(** X1. In every reachable state the local counter is non-negative and the
    watermark is at least the counter, and along any further run neither
    the counter nor the watermark ever decreases. *)
Theorem counters_along_run (proc_id : string) (self self' : GroupMember)
    (evs : list Event) :
  reachable proc_id self → run self evs = Some self' →
  0 ≤ _generation self ∧ _generation self ≤ _time self
  ∧ _generation self ≤ _generation self' ∧ _time self ≤ _time self'.
Proof.
  intros [evs0 Hreach] Hrun.
  destruct (run_counters evs0 _ _ (init_counters_ok proc_id) Hreach)
    as ([H0 H1] & _ & _).
  destruct (run_counters evs _ _ (conj H0 H1) Hrun) as (_ & Hg & Ht).
  done.
Qed.

Lemma counters_along_run_witness :
  reachable "a" joined_a
  ∧ run joined_a [LocalMessage LEAVE (ctx_at 5)] = Some left_a
  ∧ _generation joined_a ≤ _generation left_a
  ∧ _time joined_a ≤ _time left_a.
Proof.
  assert (H1 : reachable "a" joined_a).
  { exists [LocalMessage (JOIN "a") (ctx_at 1)]. vm_compute. reflexivity. }
  assert (H2 : run joined_a [LocalMessage LEAVE (ctx_at 5)] = Some left_a)
    by (vm_compute; reflexivity).
  exact (conj H1 (conj H2 (proj2 (proj2
    (counters_along_run "a" joined_a left_a _ H1 H2))))).
Defined.

Lemma deliver_suspicion_ok (proc_id : string) (self : GroupMember) (ev : Event)
    (res : GroupMember * list Action) :
  suspicion_ok proc_id self → deliver self ev = Some res →
  suspicion_ok proc_id res.1.
Proof.
  intros [Hid Hw] Hd. split; [by rewrite (deliver_id _ _ _ Hd)|].
  intros p status.
  destruct (deliver_waiting_cases _ _ _ Hd)
    as [->|[(s & Hpos & ->)|[(t & Ht & ->)|[(t & Ht & ->)|(t & _ & Hne & ->)]]]].
  - apply Hw.
  - intros [[<- <-]|[_ H]]%lookup_insert_Some; [|by apply Hw].
    destruct (_waiting_answer self !! s) as [v|] eqn:Hs; [|simpl in Hpos; lia].
    split; [by apply (Hw s v)|by left].
  - intros [[<- <-]|[_ H]]%lookup_insert_Some; [|by apply Hw].
    split; [by apply (Hw t 1)|auto].
  - intros [_ H]%lookup_delete_Some. by apply Hw.
  - intros [[<- <-]|[_ H]]%lookup_insert_Some; [|by apply Hw].
    split; [congruence|auto].
Qed.

(** X2. In every reachable state of the engine of [proc_id] the engine still
    has the id it was created with, and its suspicion map names other
    processes only, each with state 0, 1 or 2. *)
Theorem suspicion_map_invariant (proc_id : string) (self : GroupMember) :
  reachable proc_id self →
  _id self = proc_id
  ∧ ∀ p status, _waiting_answer self !! p = Some status →
                p ≠ proc_id ∧ (status = 0 ∨ status = 1 ∨ status = 2).
Proof.
  intros [evs Hrun]. change (suspicion_ok proc_id self).
  assert (Hinit : suspicion_ok proc_id (__init__ proc_id)).
  { split; [done|]. intros p status H.
    cbn [__init__ _waiting_answer] in H. by rewrite lookup_empty in H. }
  revert Hinit Hrun. generalize (__init__ proc_id).
  induction evs as [|ev evs IH]; intros s Hs; simpl.
  - by intros [= <-].
  - destruct (deliver s ev) as [[s1 acts]|] eqn:Hd; [|done].
    apply IH. exact (deliver_suspicion_ok _ _ _ _ Hs Hd).
Qed.

Lemma suspicion_map_invariant_witness :
  reachable "a" joined_a ∧ _id joined_a = "a".
Proof.
  assert (H1 : reachable "a" joined_a).
  { exists [LocalMessage (JOIN "a") (ctx_at 1)]. vm_compute. reflexivity. }
  exact (conj H1 (proj1 (suspicion_map_invariant "a" joined_a H1))).
Defined.

(** X3. One callback changes the suspicion entry of a process [p] in one of
    four ways only, or not at all: a positive entry is cleared to 0; an
    entry of 1 becomes 2; an entry of 2 is erased; or the entry is set to 1,
    and then [p] is in the cached active set and is not the engine itself. *)
Theorem suspicion_transitions (self : GroupMember) (ev : Event)
    (res : GroupMember * list Action) (p : string) :
  deliver self ev = Some res →
  _waiting_answer res.1 !! p = _waiting_answer self !! p
  ∨ (0 < default 0 (_waiting_answer self !! p)
     ∧ _waiting_answer res.1 !! p = Some 0)
  ∨ (_waiting_answer self !! p = Some 1 ∧ _waiting_answer res.1 !! p = Some 2)
  ∨ (_waiting_answer self !! p = Some 2 ∧ _waiting_answer res.1 !! p = None)
  ∨ (_waiting_answer res.1 !! p = Some 1 ∧ p ∈ _active self ∧ p ≠ _id self).
Proof.
  intros Hd.
  destruct (deliver_waiting_cases _ _ _ Hd)
    as [->|[(s & Hpos & ->)|[(t & Ht & ->)|[(t & Ht & ->)|(t & Hin & Hne & ->)]]]].
  - by left.
  - destruct (decide (p = s)) as [->|Hps].
    + right; left. by rewrite lookup_insert_eq.
    + left. by rewrite lookup_insert_ne.
  - destruct (decide (p = t)) as [->|Hpt].
    + right; right; left. by rewrite lookup_insert_eq.
    + left. by rewrite lookup_insert_ne.
  - destruct (decide (p = t)) as [->|Hpt].
    + right; right; right; left. by rewrite lookup_delete_eq.
    + left. by rewrite lookup_delete_ne.
  - destruct (decide (p = t)) as [->|Hpt].
    + right; right; right; right. by rewrite lookup_insert_eq.
    + left. by rewrite lookup_insert_ne.
Qed.

Lemma suspicion_transitions_witness :
  deliver (probing_a 1) (TimerFired "ping_c" (ctx_at 20))
  = Some (on_timer (probing_a 1) "ping_c" (ctx_at 20))
  ∧ (_waiting_answer (on_timer (probing_a 1) "ping_c" (ctx_at 20)).1 !! "b"
     = _waiting_answer (probing_a 1) !! "b"
     ∨ (0 < default 0 (_waiting_answer (probing_a 1) !! "b")
        ∧ _waiting_answer (on_timer (probing_a 1) "ping_c" (ctx_at 20)).1 !! "b"
          = Some 0)
     ∨ (_waiting_answer (probing_a 1) !! "b" = Some 1
        ∧ _waiting_answer (on_timer (probing_a 1) "ping_c" (ctx_at 20)).1 !! "b"
          = Some 2)
     ∨ (_waiting_answer (probing_a 1) !! "b" = Some 2
        ∧ _waiting_answer (on_timer (probing_a 1) "ping_c" (ctx_at 20)).1 !! "b"
          = None)
     ∨ (_waiting_answer (on_timer (probing_a 1) "ping_c" (ctx_at 20)).1 !! "b"
        = Some 1
        ∧ "b" ∈ _active (probing_a 1) ∧ "b" ≠ _id (probing_a 1))).
Proof.
  assert (H : deliver (probing_a 1) (TimerFired "ping_c" (ctx_at 20))
              = Some (on_timer (probing_a 1) "ping_c" (ctx_at 20)))
    by reflexivity.
  exact (conj H (suspicion_transitions (probing_a 1) _ _ "b" H)).
Defined.

(** X4. In every reachable state each member of the cached active set has
    an entry in the added register. *)
Theorem active_members_have_entries (proc_id : string) (self : GroupMember) :
  reachable proc_id self →
  ∀ p, p ∈ _active self → is_Some (_added_members self !! p).
Proof.
  intros [evs Hrun]. change (active_has_entry self).
  assert (Hinit : active_has_entry (__init__ proc_id)).
  { intros p []%elem_of_empty. }
  revert Hinit Hrun. generalize (__init__ proc_id).
  induction evs as [|ev evs IH]; intros s Hs; simpl.
  - by intros [= <-].
  - destruct (deliver s ev) as [[s1 acts]|] eqn:Hd; [|done].
    apply IH. exact (deliver_has_entry _ _ _ Hs Hd).
Qed.

Lemma active_members_have_entries_witness :
  reachable "a" joined_a
  ∧ ∀ p, p ∈ _active joined_a → is_Some (_added_members joined_a !! p).
Proof.
  assert (H1 : reachable "a" joined_a).
  { exists [LocalMessage (JOIN "a") (ctx_at 1)]. vm_compute. reflexivity. }
  exact (conj H1 (active_members_have_entries "a" joined_a H1)).
Defined.

(** ** The sampler *)

Lemma serialize_sample_list (rnd : list nat) (data_dict : gmap string Tag) :
  ∃ sampled,
    (_serialize_sample rnd data_dict).1 = foldl serialize_item ∅ sampled
    ∧ sampled ⊆+ map_to_list data_dict
    ∧ length sampled = Nat.min Params.SAMPLE_SIZE (size data_dict).
Proof.
  unfold _serialize_sample. rewrite length_map_to_list.
  set (k := Nat.min Params.SAMPLE_SIZE (size data_dict)).
  destruct (Nat.ltb_spec 0 k) as [Hk|Hk].
  - pose proof (random_sample_submseteq k rnd (map_to_list data_dict)) as Hsub.
    pose proof (random_sample_length k rnd (map_to_list data_dict)) as Hlen.
    destruct (random_sample rnd (map_to_list data_dict) k) as [sampled rnd'].
    exists sampled. cbn [fst] in *. split; [done|]. split; [done|].
    rewrite Hlen, length_map_to_list. unfold k. lia.
  - exists []. split; [done|]. split; [apply submseteq_nil_l|].
    simpl. lia.
Qed.

Lemma submseteq_NoDup_fst {A} (l k : list (string * A)) :
  l ⊆+ k → NoDup k.*1 → NoDup l.*1.
Proof.
  intros Hsub Hnd. apply (fmap_submseteq fst) in Hsub.
  apply submseteq_Permutation in Hsub as [k' Hk'].
  rewrite Hk' in Hnd. by apply NoDup_app in Hnd as [? _].
Qed.

Lemma serialize_fold_lookup_eq (l : list (string * Tag))
    (d : gmap string SampleEntry) (p : string) :
  NoDup l.*1 →
  foldl serialize_item d l !! p
  = match (list_to_map l : gmap string Tag) !! p with
    | Some t => Some (serialize_tag t)
    | None => d !! p
    end.
Proof.
  revert d. induction l as [|[q [ts gen]] l IH]; intros d Hnd.
  - simpl. by rewrite lookup_empty.
  - apply NoDup_cons in Hnd as [Hq Hnd].
    cbn [foldl list_to_map foldr uncurry]. rewrite IH by done.
    unfold serialize_item.
    destruct (decide (p = q)) as [->|Hne].
    + rewrite (not_elem_of_list_to_map_1 _ _ Hq), !lookup_insert_eq. done.
    + rewrite (lookup_insert_ne (list_to_map l)) by done.
      destruct (list_to_map l !! p); [done|].
      by rewrite lookup_insert_ne.
Qed.

Lemma serialize_fold_dom (l : list (string * Tag))
    (d : gmap string SampleEntry) :
  dom (foldl serialize_item d l) = list_to_set l.*1 ∪ dom d.
Proof.
  revert d. induction l as [|[q [ts gen]] l IH]; intros d.
  - simpl. set_solver.
  - cbn [foldl]. rewrite IH. unfold serialize_item. rewrite dom_insert_L.
    simpl. set_solver.
Qed.

(** X5. [_serialize_sample] returns a map of exactly
    min(SAMPLE_SIZE, number of register entries) entries, each of them the
    wire form of the register's own entry for that process id; a register
    of at most SAMPLE_SIZE entries, the empty one included, is returned in
    full. *)
Theorem serialize_sample_spec (rnd : list nat) (data_dict : gmap string Tag) :
  size (_serialize_sample rnd data_dict).1
  = Nat.min Params.SAMPLE_SIZE (size data_dict)
  ∧ (∀ p e, (_serialize_sample rnd data_dict).1 !! p = Some e →
            ∃ t, data_dict !! p = Some t ∧ e = serialize_tag t)
  ∧ ((size data_dict ≤ Params.SAMPLE_SIZE)%nat →
     (_serialize_sample rnd data_dict).1 = serialize_tag <$> data_dict).
Proof.
  destruct (serialize_sample_list rnd data_dict) as (l & -> & Hsub & Hlen).
  assert (Hnd : NoDup l.*1).
  { eapply submseteq_NoDup_fst; [done|apply NoDup_fst_map_to_list]. }
  split; [|split].
  - rewrite <- size_dom, serialize_fold_dom, dom_empty_L, union_empty_r_L.
    by rewrite size_list_to_set, length_fmap.
  - intros p e. rewrite serialize_fold_lookup_eq, lookup_empty by done.
    destruct (list_to_map l !! p) as [t|] eqn:Ht; [|done].
    intros [= <-]. exists t. split; [|done].
    apply elem_of_list_to_map in Ht; [|done].
    apply elem_of_map_to_list. by eapply elem_of_submseteq.
  - intros Hsmall.
    assert (Hperm : l ≡ₚ map_to_list data_dict).
    { apply submseteq_length_Permutation; [done|].
      rewrite Hlen, length_map_to_list. lia. }
    apply map_eq. intros p.
    rewrite serialize_fold_lookup_eq, lookup_empty, lookup_fmap by done.
    rewrite (list_to_map_proper _ _ Hnd Hperm), list_to_map_to_list.
    by destruct (data_dict !! p).
Qed.

Lemma serialize_sample_spec_witness :
  (size (_added_members (probing_a 1)) ≤ Params.SAMPLE_SIZE)%nat
  ∧ (_serialize_sample [3; 1; 4]%nat (_added_members (probing_a 1))).1
    = serialize_tag <$> _added_members (probing_a 1).
Proof.
  assert (H : (size (_added_members (probing_a 1)) ≤ Params.SAMPLE_SIZE)%nat)
    by (vm_compute; lia).
  exact (conj H (proj2 (proj2
    (serialize_sample_spec [3; 1; 4]%nat (_added_members (probing_a 1)))) H)).
Defined.

(** ** Gossip that comes back *)

Lemma entry_tag_serialize_tag (t : Tag) : entry_tag (serialize_tag t) = t.
Proof. by destruct t. Qed.

(** X6. An engine that merges samples of its own registers, together with
    its own watermark, keeps both registers, the watermark and every other
    field; only the cached active set is recomputed from the registers. *)
Theorem own_gossip_changes_nothing (self : GroupMember) (rnd rnd' : list nat) :
  _merge_crdt_sample self
    (_serialize_sample rnd (_added_members self)).1
    (_serialize_sample rnd' (_removed_members self)).1
    (_time self)
  = set_active self (_get_active_members self).
Proof.
  set (a := (_serialize_sample rnd (_added_members self)).1).
  set (r := (_serialize_sample rnd' (_removed_members self)).1).
  assert (Hkey : ∀ p, key_state (_merge_crdt_sample self a r (_time self)) p
                      = key_state self p).
  { intros p. rewrite merge_key_state. unfold key_state.
    assert (Ha : merge_added_key (entry_tag <$> a !! p)
                   (_added_members self !! p, _removed_members self !! p)
                 = (_added_members self !! p, _removed_members self !! p)).
    { destruct (a !! p) as [e|] eqn:He; [|done].
      apply serialize_sample_sound in He as (t & Ht & ->).
      cbn [fmap option_fmap option_map]. rewrite entry_tag_serialize_tag, Ht.
      destruct t as [ts gen]. unfold merge_added_key. cbn [fst snd default
        from_option id]. by rewrite Z.gtb_ltb, Z.ltb_irrefl. }
    unfold merge_key. rewrite Ha.
    destruct (r !! p) as [e|] eqn:He; [|done].
    apply serialize_sample_sound in He as (t & Ht & ->).
    cbn [fmap option_fmap option_map]. rewrite entry_tag_serialize_tag, Ht.
    destruct t as [ts gen]. unfold merge_removed_key. cbn [fst snd default
      from_option id]. by rewrite Z.gtb_ltb, Z.ltb_irrefl. }
  destruct (merge_frame self a r (_time self)) as (Hid & Hj & Ht & Hw & Hg & Hact).
  apply GroupMember_eq; try done.
  - rewrite Ht. cbn [set_active _time]. lia.
  - rewrite Hact. cbn [set_active _active]. apply set_eq. intros p.
    by rewrite !elem_of_get_active_key, Hkey.
Qed.

(** ** What a merge decides and what it leaves alone *)

(** X7. On a reachable state, a process id is active after a merge exactly
    when the larger of its added generation and the added generation the
    payload carries for it exceeds the larger of its removed generation and
    the removed generation the payload carries for it, an absent entry
    counting as generation [-1]; the cached active set is that set. *)
Theorem merge_active_is_max (proc_id : string) (self : GroupMember)
    (added_sample removed_sample : gmap string SampleEntry) (time_value : Z)
    (p : string) :
  reachable proc_id self →
  let self' := _merge_crdt_sample self added_sample removed_sample time_value in
  (p ∈ _get_active_members self'
   ↔ Z.max (gen_of (_added_members self !! p))
           (gen_of (entry_tag <$> added_sample !! p))
     > Z.max (gen_of (_removed_members self !! p))
             (gen_of (entry_tag <$> removed_sample !! p)))
  ∧ _active self' = _get_active_members self'.
Proof.
  intros [_ Hnn]%reachable_gens_nonneg. cbv zeta. split.
  - rewrite elem_of_get_active_key, merge_key_state.
    rewrite (tracks_active _ _ _
               (tracks_merge (entry_tag <$> added_sample !! p)
                  (entry_tag <$> removed_sample !! p) _ _ _
                  (tracks_init _ (Hnn p)))).
    unfold sample_gen, key_state. cbn [fst snd]. apply Z.gtb_gt.
  - apply merge_frame.
Qed.

Lemma merge_active_is_max_witness :
  reachable "a" (__init__ "a")
  ∧ ("b" ∈ _get_active_members
             (_merge_crdt_sample (__init__ "a") (sample1 "b" 6 2)
                (sample1 "b" 5 1) 2)
     ↔ Z.max (gen_of (_added_members (__init__ "a") !! "b"))
             (gen_of (entry_tag <$> sample1 "b" 6 2 !! "b"))
       > Z.max (gen_of (_removed_members (__init__ "a") !! "b"))
               (gen_of (entry_tag <$> sample1 "b" 5 1 !! "b"))).
Proof.
  assert (H : reachable "a" (__init__ "a")) by (exists []; reflexivity).
  exact (conj H (proj1
    (merge_active_is_max "a" (__init__ "a") (sample1 "b" 6 2)
       (sample1 "b" 5 1) 2 "b" H))).
Defined.

(** X8. A merge changes neither the id, the joined flag, the local counter
    nor the suspicion map; it raises the watermark to the maximum of the
    old watermark and the remote time; and it leaves both register entries
    of every process id that neither sample names as they were. *)
Theorem merge_touches_named_keys_only (self : GroupMember)
    (added_sample removed_sample : gmap string SampleEntry) (time_value : Z) :
  let self' := _merge_crdt_sample self added_sample removed_sample time_value in
  _id self' = _id self ∧ _joined self' = _joined self
  ∧ _generation self' = _generation self
  ∧ _waiting_answer self' = _waiting_answer self
  ∧ _time self' = Z.max (_time self) time_value
  ∧ ∀ p, added_sample !! p = None → removed_sample !! p = None →
         _added_members self' !! p = _added_members self !! p
         ∧ _removed_members self' !! p = _removed_members self !! p.
Proof.
  cbv zeta.
  destruct (merge_frame self added_sample removed_sample time_value)
    as (Hid & Hj & Ht & Hw & Hg & _).
  repeat (split; [done|]).
  intros p Ha Hr.
  pose proof (merge_key_state self added_sample removed_sample time_value p)
    as Hk.
  rewrite Ha, Hr in Hk.
  split; [exact (f_equal fst Hk)|exact (f_equal snd Hk)].
Qed.

Lemma merge_touches_named_keys_only_witness :
  sample1 "b" 6 2 !! "a" = None
  ∧ (∅ : gmap string SampleEntry) !! "a" = None
  ∧ _added_members (_merge_crdt_sample joined_a (sample1 "b" 6 2) ∅ 9) !! "a"
    = _added_members joined_a !! "a".
Proof.
  assert (H1 : sample1 "b" 6 2 !! "a" = None) by reflexivity.
  assert (H2 : (∅ : gmap string SampleEntry) !! "a" = None) by reflexivity.
  exact (conj H1 (conj H2 (proj1 (proj2 (proj2 (proj2 (proj2 (proj2
    (merge_touches_named_keys_only joined_a (sample1 "b" 6 2) ∅ 9)))))
    "a" H1 H2)))).
Defined.

(** ** Marks one after the other *)

Lemma mark_removed_lookups self p ts :
  _added_members (_mark_removed self p ts) !! p
  = match _added_members self !! p with
    | Some added_entry =>
        if _generation self + 1 >? added_entry.2 then None else Some added_entry
    | None => None
    end
  ∧ _removed_members (_mark_removed self p ts) !! p
    = Some (ts, _generation self + 1).
Proof.
  pose proof (mark_removed_key_state self p ts p) as Hk.
  rewrite decide_True in Hk by done.
  split; [exact (f_equal fst Hk)|exact (f_equal snd Hk)].
Qed.

Lemma mark_added_lookups self p ts :
  _added_members (_mark_added self p ts) !! p
  = Some (ts, _generation self + 1)
  ∧ _removed_members (_mark_added self p ts) !! p
    = match _removed_members self !! p with
      | Some removed_entry =>
          if float_gt ts removed_entry.1 then None else Some removed_entry
      | None => None
      end.
Proof.
  pose proof (mark_added_key_state self p ts p) as Hk.
  rewrite decide_True in Hk by done.
  split; [exact (f_equal fst Hk)|exact (f_equal snd Hk)].
Qed.

(** X9. Marking a process added and then removed always ends with the
    process removed: its added entry is gone, its removed entry carries the
    second fresh generation, and it is neither in the cached active set nor
    in the set [_get_active_members] computes. *)
Theorem mark_added_then_removed (self : GroupMember) (p : string)
    (ts ts' : Q) :
  let self' := _mark_removed (_mark_added self p ts) p ts' in
  _added_members self' !! p = None
  ∧ _removed_members self' !! p = Some (ts', _generation self + 2)
  ∧ (p ∉ _active self')
  ∧ (p ∉ _get_active_members self').
Proof.
  cbv zeta.
  destruct (mark_removed_lookups (_mark_added self p ts) p ts') as [Ha Hr].
  rewrite (proj1 (mark_added_lookups self p ts)) in Ha.
  cbn [_mark_added _generation snd] in Ha, Hr.
  rewrite (proj2 (Z.gtb_gt _ _)) in Ha by lia.
  replace (_generation self + 1 + 1) with (_generation self + 2) in Hr by lia.
  split; [done|]. split; [done|]. split.
  - cbn [_mark_removed _active]. set_solver.
  - rewrite elem_of_get_active_members, Ha. done.
Qed.

(** X10. Marking a process removed and then added always ends with the
    process active: its added entry carries the second fresh generation,
    it is in the cached active set and in the set [_get_active_members]
    computes; the removed entry written in between is deleted when the new
    timestamp is greater than its own and stays otherwise. *)
Theorem mark_removed_then_added (self : GroupMember) (p : string)
    (ts ts' : Q) :
  let self' := _mark_added (_mark_removed self p ts) p ts' in
  _added_members self' !! p = Some (ts', _generation self + 2)
  ∧ _removed_members self' !! p
    = (if float_gt ts' ts then None else Some (ts, _generation self + 1))
  ∧ p ∈ _active self'
  ∧ p ∈ _get_active_members self'.
Proof.
  cbv zeta.
  destruct (mark_added_lookups (_mark_removed self p ts) p ts') as [Ha Hr].
  rewrite (proj2 (mark_removed_lookups self p ts)) in Hr.
  cbn [_mark_removed _generation fst] in Ha, Hr.
  replace (_generation self + 1 + 1) with (_generation self + 2) in Ha by lia.
  split; [done|]. split; [done|]. split.
  - cbn [_mark_added _active]. set_solver.
  - rewrite elem_of_get_active_members, Ha, Hr.
    destruct (float_gt ts' ts); [done|].
    cbn [active_key snd]. apply Z.gtb_gt. lia.
Qed.

(** ** The probe timer *)

Lemma probe_candidates_nil (self : GroupMember) (order : list nat) :
  filter (λ p, p ≠ _id self) (set_iter order (_active self)) = []
  ↔ _active self ⊆ {[_id self]}.
Proof.
  split.
  - intros Hnil p Hp. apply elem_of_singleton.
    destruct (decide (p = _id self)) as [|Hne]; [done|].
    assert (Hin : p ∈ filter (λ p, p ≠ _id self)
                        (set_iter order (_active self))).
    { apply list_elem_of_filter. split; [done|]. by apply elem_of_set_iter. }
    rewrite Hnil in Hin. by apply elem_of_nil in Hin.
  - intros Hsub.
    destruct (filter _ _) as [|c cs] eqn:Hc; [done|].
    assert (Hin : c ∈ filter (λ p, p ≠ _id self)
                        (set_iter order (_active self))).
    { rewrite Hc. left. }
    apply list_elem_of_filter in Hin as [Hne Hin%elem_of_set_iter].
    apply Hsub, elem_of_singleton in Hin. done.
Qed.

(** X11. A firing of periodic_ping on an engine that has not joined, or
    whose cached active set holds no process other than itself, only
    re-arms the timer for T.  Otherwise it sets the suspicion entry of one
    member of the cached active set other than the engine to 1, sends that
    one process a PING without target that carries samples of the
    registers and the watermark, arms ping_<target> for T·S and re-arms
    periodic_ping for T, in this order; nothing else changes. *)
Theorem periodic_ping_fire (self : GroupMember) (ctx : Context) :
  (_joined self = false ∨ _active self ⊆ {[_id self]} →
   on_timer self "periodic_ping" ctx
   = (self, [set_timer "periodic_ping" Params.T]))
  ∧ (_joined self = true → ¬ _active self ⊆ {[_id self]} →
     ∃ target added removed,
       target ∈ _active self ∧ target ≠ _id self
       ∧ on_timer self "periodic_ping" ctx
         = (set_waiting_answer self (<[target := 1]> (_waiting_answer self)),
            [send (PING added removed (_time self) None) target;
             set_timer ("ping_" +:+ target) (Params.T * inject_Z Params.S)%Q;
             set_timer "periodic_ping" Params.T])
       ∧ (∀ p e, added !! p = Some e →
                 ∃ t, _added_members self !! p = Some t ∧ e = serialize_tag t)
       ∧ (∀ p e, removed !! p = Some e →
                 ∃ t, _removed_members self !! p = Some t
                      ∧ e = serialize_tag t)).
Proof.
  change (on_timer self "periodic_ping" ctx) with (_periodic_ping self ctx).
  unfold _periodic_ping. split.
  - intros [Hj|Hsub].
    + by rewrite Hj.
    + destruct (negb (_joined self) || bool_decide (_active self = ∅)); [done|].
      by rewrite (proj2 (probe_candidates_nil self (set_order ctx)) Hsub).
  - intros Hj Hnsub. rewrite Hj. cbn [negb orb].
    rewrite bool_decide_eq_false_2 by (intros He; apply Hnsub; set_solver).
    destruct (filter _ _) as [|c cs] eqn:Hc.
    { by apply probe_candidates_nil in Hc. }
    pose proof (random_choice_elem (random ctx) (c :: cs) c) as Hin.
    destruct (random_choice (random ctx) (c :: cs) c) as [target rnd1].
    cbn [fst] in Hin. specialize (Hin ltac:(done)). rewrite <- Hc in Hin.
    apply list_elem_of_filter in Hin as [Hne Hin%elem_of_set_iter].
    cbn [set_waiting_answer _added_members _removed_members _time].
    pose proof (serialize_sample_sound rnd1 (_added_members self)) as Ha.
    destruct (_serialize_sample rnd1 (_added_members self)) as [added rnd2].
    pose proof (serialize_sample_sound rnd2 (_removed_members self)) as Hr.
    destruct (_serialize_sample rnd2 (_removed_members self)) as [removed rnd3].
    exists target, added, removed. by repeat (split; [done|]).
Qed.

Lemma periodic_ping_fire_witness :
  (_joined joined_a = false ∨ _active joined_a ⊆ {[_id joined_a]})
  ∧ on_timer joined_a "periodic_ping" (ctx_at 6)
    = (joined_a, [set_timer "periodic_ping" Params.T]).
Proof.
  assert (H : _joined joined_a = false ∨ _active joined_a ⊆ {[_id joined_a]}).
  { right. intros p Hp. exact Hp. }
  exact (conj H (proj1 (periodic_ping_fire joined_a (ctx_at 6)) H)).
Defined.

Example probe_of_probing_a :
  ∃ added removed,
    on_timer (probing_a 0) "periodic_ping"
      {| time := 6; random := [1]%nat; set_order := [] |}
    = (set_waiting_answer (probing_a 0) (<[ "b" := 1 ]> {[ "c" := 0 ]}),
       [send (PING added removed 4 None) "b";
        set_timer "ping_b" 15%Q; set_timer "periodic_ping" 5%Q]).
Proof. eexists _, _. vm_compute. reflexivity. Qed.

(** ** Leaving and joining *)

Lemma on_local_message_LEAVE self msg ctx :
  msg_type msg = "LEAVE" →
  on_local_message self msg ctx = Some (_leave_group self ctx).
Proof. intros H. unfold on_local_message. by rewrite H. Qed.

(** X12. LEAVE on an engine that has not joined changes nothing and makes no
    runtime call.  On a joined engine it clears the joined flag, writes
    [removed[self]] with the current time and a fresh generation, takes the
    engine out of its cached active set, leaves the suspicion map alone and
    cancels the probe timer as its only runtime call; a LEAVE that follows
    is then without effect. *)
Theorem leave_effect (self : GroupMember) (msg : Message) (ctx ctx' : Context) :
  msg_type msg = "LEAVE" →
  (_joined self = false → on_local_message self msg ctx = Some (self, []))
  ∧ (_joined self = true →
     ∃ self',
       on_local_message self msg ctx
       = Some (self', [cancel_timer "periodic_ping"])
       ∧ _joined self' = false
       ∧ _generation self' = _generation self + 1
       ∧ _removed_members self' !! _id self
         = Some (time ctx, _generation self + 1)
       ∧ (_id self ∉ _active self')
       ∧ _waiting_answer self' = _waiting_answer self
       ∧ on_local_message self' msg ctx' = Some (self', [])).
Proof.
  intros Hty. split; intros Hj; rewrite on_local_message_LEAVE by done;
    unfold _leave_group; rewrite Hj; [done|]. cbn [negb].
  eexists. split; [reflexivity|]. split; [done|]. split; [done|].
  split; [|split; [|split]].
  - exact (proj2 (mark_removed_lookups (set_joined self false) (_id self)
                    (time ctx))).
  - cbn [set_active _active]. set_solver.
  - done.
  - by rewrite on_local_message_LEAVE.
Qed.

Lemma leave_effect_witness :
  msg_type LEAVE = "LEAVE" ∧ _joined joined_a = true
  ∧ ∃ self',
      on_local_message joined_a LEAVE (ctx_at 5)
      = Some (self', [cancel_timer "periodic_ping"])
      ∧ _joined self' = false
      ∧ _generation self' = _generation joined_a + 1
      ∧ _removed_members self' !! _id joined_a
        = Some (time (ctx_at 5), _generation joined_a + 1)
      ∧ (_id joined_a ∉ _active self')
      ∧ _waiting_answer self' = _waiting_answer joined_a
      ∧ on_local_message self' LEAVE (ctx_at 6) = Some (self', []).
Proof.
  assert (H1 : msg_type LEAVE = "LEAVE") by reflexivity.
  assert (H2 : _joined joined_a = true) by reflexivity.
  exact (conj H1 (conj H2
    (proj2 (leave_effect joined_a LEAVE (ctx_at 5) (ctx_at 6) H1) H2))).
Defined.

Lemma bootstrap_pings_spec (self : GroupMember) (seed : string) (rounds : nat)
    (rnd : list nat) :
  length (bootstrap_pings self seed rounds rnd) = rounds
  ∧ ∀ a, a ∈ bootstrap_pings self seed rounds rnd →
         ∃ added removed, a = send (PING added removed (_time self) None) seed.
Proof.
  revert rnd. induction rounds as [|n IH]; intros rnd.
  - split; [done|]. by intros a ?%elem_of_nil.
  - cbn [bootstrap_pings].
    destruct (_serialize_sample rnd (_added_members self)) as [added rnd1].
    destruct (_serialize_sample rnd1 (_removed_members self)) as [removed rnd2].
    destruct (IH rnd2) as [Hlen Hall]. split; [by rewrite length_cons, Hlen|].
    intros a [->|Ha]%elem_of_cons; [by exists added, removed|by apply Hall].
Qed.

(** X13. JOIN with a seed other than the engine's id, on an engine that has
    not joined, sets the joined flag, writes [added[self]] with timestamp
    [-1] and a fresh generation, puts the engine into its cached active
    set, leaves the suspicion map alone, sends exactly K PINGs without
    target, all of them to the seed and with the new watermark, and then
    arms the probe timer for T. *)
Theorem join_via_seed (self : GroupMember) (msg : Message) (seed : string)
    (ctx : Context) :
  msg_type msg = "JOIN" → msg_seed msg = Some seed →
  seed ≠ _id self → _joined self = false →
  ∃ self' pings,
    on_local_message self msg ctx
    = Some (self', pings ++ [set_timer "periodic_ping" Params.T])
    ∧ length pings = Params.K
    ∧ (∀ a, a ∈ pings →
            ∃ added removed,
              a = send (PING added removed (_time self') None) seed)
    ∧ _joined self' = true
    ∧ _added_members self' !! _id self
      = Some ((-1)%Q, _generation self + 1)
    ∧ _time self' = Z.max (_time self) (_generation self + 1)
    ∧ _id self ∈ _active self'
    ∧ _waiting_answer self' = _waiting_answer self.
Proof.
  intros Hty Hseed Hne Hj. unfold on_local_message.
  rewrite Hty, Hseed, bool_decide_eq_true_2 by done.
  rewrite bool_decide_eq_false_2 by done.
  unfold _join_group. rewrite Hj.
  eexists _, _. split; [reflexivity|].
  match goal with
  | |- context [bootstrap_pings ?s seed Params.K (random ctx)] =>
      destruct (bootstrap_pings_spec s seed Params.K (random ctx)) as [Hlen Hall]
  end.
  split; [exact Hlen|]. split; [exact Hall|]. split; [done|].
  split; [apply lookup_insert_eq|]. split; [done|].
  split; [cbn [set_active _active]; set_solver|done].
Qed.

Lemma join_via_seed_witness :
  msg_type (JOIN "a") = "JOIN" ∧ msg_seed (JOIN "a") = Some "a"
  ∧ "a" ≠ _id (__init__ "b") ∧ _joined (__init__ "b") = false
  ∧ ∃ self' pings,
      on_local_message (__init__ "b") (JOIN "a") (ctx_at 1)
      = Some (self', pings ++ [set_timer "periodic_ping" Params.T])
      ∧ length pings = Params.K.
Proof.
  assert (H1 : msg_type (JOIN "a") = "JOIN") by reflexivity.
  assert (H2 : msg_seed (JOIN "a") = Some "a") by reflexivity.
  assert (H3 : "a" ≠ _id (__init__ "b")) by discriminate.
  assert (H4 : _joined (__init__ "b") = false) by reflexivity.
  destruct (join_via_seed (__init__ "b") (JOIN "a") "a" (ctx_at 1) H1 H2 H3 H4)
    as (self' & pings & Heq & Hlen & _).
  exact (conj H1 (conj H2 (conj H3 (conj H4
    (ex_intro _ self' (ex_intro _ pings (conj Heq Hlen))))))).
Defined.

Lemma on_local_message_JOIN_self self msg ctx :
  msg_type msg = "JOIN" → msg_seed msg = Some (_id self) →
  on_local_message self msg ctx = Some (_create_group self ctx).
Proof.
  intros H Hs. unfold on_local_message.
  by rewrite H, Hs, !bool_decide_eq_true_2.
Qed.

Lemma create_group_fresh (proc_id : string) (ctx : Context) :
  _create_group (__init__ proc_id) ctx
  = (created_alone proc_id (time ctx), [set_timer "periodic_ping" Params.T]).
Proof.
  unfold _create_group, __init__, created_alone. f_equal.
  unfold set_active, _mark_added, set_joined.
  cbn [_id _joined _time _generation _added_members _removed_members
       _waiting_answer _active].
  rewrite lookup_empty, insert_empty. f_equal. set_solver.
Qed.

Lemma leave_group_created (proc_id : string) (t : Q) (ctx : Context) :
  _leave_group (created_alone proc_id t) ctx
  = (left_alone proc_id (time ctx), [cancel_timer "periodic_ping"]).
Proof.
  unfold _leave_group, created_alone, left_alone. cbn [_joined negb]. f_equal.
  unfold set_active, _mark_removed, set_joined.
  cbn [_id _joined _time _generation _added_members _removed_members
       _waiting_answer _active].
  rewrite lookup_singleton_eq. cbn [snd]. change (1 + 1 >? 1) with true.
  cbv iota. rewrite delete_singleton_eq.
  f_equal. set_solver.
Qed.

(** X14. An engine that creates its own group and then leaves it, whatever
    its id and the two clock readings, ends not joined, with an empty added
    register, [removed[self]] written at generation 2 and an empty active
    set, cached and computed. *)
Theorem create_then_leave (proc_id : string) (ctx1 ctx2 : Context) :
  run (__init__ proc_id)
    [LocalMessage (JOIN proc_id) ctx1; LocalMessage LEAVE ctx2]
  = Some (left_alone proc_id (time ctx2))
  ∧ _get_active_members (left_alone proc_id (time ctx2)) = ∅.
Proof.
  split.
  - unfold run, deliver.
    rewrite (on_local_message_JOIN_self (__init__ proc_id) (JOIN proc_id) ctx1)
      by reflexivity.
    rewrite create_group_fresh, on_local_message_LEAVE by reflexivity.
    by rewrite leave_group_created.
  - apply set_eq. intros p. rewrite elem_of_get_active_members.
    cbn [left_alone _added_members]. rewrite lookup_empty. set_solver.
Qed.

(** ** Learning the sender *)

Lemma merge_active_of_entry self a r t p entry :
  _added_members (_merge_crdt_sample self a r t) !! p = Some entry →
  _removed_members (_merge_crdt_sample self a r t) !! p = None →
  p ∈ _active (_merge_crdt_sample self a r t).
Proof.
  intros Ha Hr.
  rewrite (proj2 (proj2 (proj2 (proj2 (proj2 (merge_frame self a r t)))))).
  apply elem_of_get_active_members. by rewrite Ha, Hr.
Qed.

(** X16. After a PING that is not relayed (it has no target, or the target
    is the receiver) and after every PING_ANSWER, the sender has an entry
    in the added register and is in the cached active set; and a
    PING_ANSWER is never answered: handling it sends no network message. *)
Theorem sender_is_learned (self : GroupMember) (msg : Message)
    (sender : string) (ctx : Context) :
  (msg_type msg = "PING" →
   msg_target msg = None ∨ msg_target msg = Some (_id self) →
   is_Some (_added_members (on_message self msg sender ctx).1 !! sender)
   ∧ sender ∈ _active (on_message self msg sender ctx).1)
  ∧ (msg_type msg = "PING_ANSWER" →
     is_Some (_added_members (on_message self msg sender ctx).1 !! sender)
     ∧ sender ∈ _active (on_message self msg sender ctx).1
     ∧ send_dests (on_message self msg sender ctx).2 = []).
Proof.
  split.
  - intros Hty Htg. rewrite on_message_PING by done. unfold _on_ping.
    rewrite merge_id.
    assert (Hrelay : match msg_target msg with
                     | Some target =>
                         if bool_decide (target ≠ _id self)
                         then Some target else None
                     | None => None
                     end = None).
    { destruct Htg as [->| ->]; [done|].
      by rewrite bool_decide_eq_false_2 by (intros H; by apply H). }
    rewrite Hrelay.
    set (self1 := _merge_crdt_sample self _ _ _).
    destruct (_added_members self1 !! sender) as [ae|] eqn:Ha.
    + destruct (_removed_members self1 !! sender) as [re|] eqn:Hr.
      * destruct (re.2 >=? _);
          repeat match goal with
            | |- context [let '(_, _) := ?e in _] => destruct e
            end; cbn [fst set_active _added_members _active];
          (split; [|set_solver]).
        -- rewrite (proj1 (mark_added_lookups self1 sender (time ctx))). eauto.
        -- rewrite Ha. eauto.
      * repeat match goal with
          | |- context [let '(_, _) := ?e in _] => destruct e
          end; cbn [fst]. split; [rewrite Ha; eauto|].
        by eapply merge_active_of_entry.
    + repeat match goal with
        | |- context [let '(_, _) := ?e in _] => destruct e
        end; cbn [fst]. split.
      * rewrite (proj1 (mark_added_lookups self1 sender (time ctx))). eauto.
      * cbn [_mark_added _active]. set_solver.
  - intros Hty. rewrite on_message_PING_ANSWER by done. unfold _on_ping_answer.
    set (self1 := _merge_crdt_sample self _ _ _).
    destruct (default 0 (_waiting_answer self1 !! sender) >? 0);
      cbn [set_waiting_answer _added_members];
      destruct (_added_members self1 !! sender) as [ae|] eqn:Ha;
      cbn [fst snd set_active _added_members _active send_dests omap];
      (split; [|split; [set_solver|done]]);
      rewrite ?(proj1 (mark_added_lookups _ sender (time ctx))), ?Ha; eauto.
Qed.

Lemma sender_is_learned_witness :
  msg_type empty_answer = "PING_ANSWER"
  ∧ is_Some (_added_members
               (on_message joined_a empty_answer "b" (ctx_at 3)).1 !! "b")
  ∧ "b" ∈ _active (on_message joined_a empty_answer "b" (ctx_at 3)).1
  ∧ send_dests (on_message joined_a empty_answer "b" (ctx_at 3)).2 = [].
Proof.
  assert (H : msg_type empty_answer = "PING_ANSWER") by reflexivity.
  exact (conj H
    (proj2 (sender_is_learned joined_a empty_answer "b" (ctx_at 3)) H)).
Defined.

(** ** Destinations of the sends *)

Lemma send_dests_app (l1 l2 : list Action) :
  send_dests (l1 ++ l2) = send_dests l1 ++ send_dests l2.
Proof. apply omap_app. Qed.

Lemma send_dests_map_send (msg : Message) (dests : list string) :
  send_dests (map (send msg) dests) = dests.
Proof. induction dests as [|d l IH]; [done|]. simpl. by rewrite <- IH at 2. Qed.

Lemma send_dests_bootstrap (self : GroupMember) (seed : string) (rounds : nat)
    (rnd : list nat) (dest : string) :
  dest ∈ send_dests (bootstrap_pings self seed rounds rnd) → dest = seed.
Proof.
  intros (a & Ha & Hd)%list_elem_of_omap.
  apply bootstrap_pings_spec in Ha as (added & removed & ->).
  by injection Hd.
Qed.

Lemma join_group_dests (self : GroupMember) (seed : string) (ctx : Context)
    (dest : string) :
  dest ∈ send_dests (_join_group self seed ctx).2 → dest = seed.
Proof.
  unfold _join_group. destruct (_joined self).
  - by intros ?%elem_of_nil.
  - change (snd (?a, ?b)) with b. rewrite send_dests_app, elem_of_app.
    intros [Hd|?%elem_of_nil]; [|done]. by eapply send_dests_bootstrap.
Qed.

(** X17. The engine never sends a network message to itself, with one
    exception: the PING_ANSWER it sends back when the sender of a PING is
    the engine itself. *)
Theorem no_send_to_self (self : GroupMember) (ev : Event)
    (res : GroupMember * list Action) (dest : string) :
  deliver self ev = Some res → dest ∈ send_dests res.2 →
  dest ≠ _id self
  ∨ ∃ msg ctx, ev = NetMessage msg dest ctx ∧ msg_type msg = "PING".
Proof.
  destruct ev as [msg ctx|msg sender ctx|timer_name ctx]; cbn [deliver].
  - unfold on_local_message, _create_group, _leave_group.
    case_bool_decide as Hty.
    + destruct (msg_seed msg) as [seed|]; [|done].
      case_bool_decide as Hseed; intros [= <-].
      { by intros ?%elem_of_nil. }
      intros ->%join_group_dests. by left.
    + repeat case_bool_decide; intros [= <-]; [destruct (negb (_joined self))|..];
        cbn [snd]; by intros ?%elem_of_nil.
  - intros [= <-]. unfold on_message.
    case_bool_decide as Hty.
    + unfold _on_ping. rewrite merge_id.
      destruct (msg_target msg) as [target|].
      * case_bool_decide as Htg.
        -- cbn [snd send_dests omap]. intros ->%list_elem_of_singleton.
           by left.
        -- repeat match goal with
             | |- context [let '(_, _) := ?e in _] => destruct e
             end. cbn [snd send_dests omap].
           intros ->%list_elem_of_singleton. right. by exists msg, ctx.
      * repeat match goal with
          | |- context [let '(_, _) := ?e in _] => destruct e
          end. cbn [snd send_dests omap].
        intros ->%list_elem_of_singleton. right. by exists msg, ctx.
    + case_bool_decide; [|by intros ?%elem_of_nil].
      unfold _on_ping_answer.
      destruct (default 0 _ >? 0); cbn [snd]; by intros ?%elem_of_nil.
  - intros [= <-]. unfold on_timer.
    destruct (String.prefix "ping_" timer_name).
    + set (target := String.substring _ _ _).
      destruct (default 0 (_waiting_answer self !! target) =? 1).
      * cbn [snd]. rewrite send_dests_app, elem_of_app.
        intros [Hd|?%elem_of_nil]; [|done]. left.
        unfold _ping_with_retransmitters in Hd.
        repeat match type of Hd with
          | context [let '(_, _) := ?e in _] => destruct e
          end.
        rewrite send_dests_map_send in Hd.
        match type of Hd with
        | _ ∈ take _ (filter _ (set_iter ?o (_active ?s))) =>
            by apply (retransmitters_spec s target o) in Hd as (_ & ? & _)
        end.
      * destruct (_ =? 2); cbn [snd]; by intros ?%elem_of_nil.
    + case_bool_decide; [|by intros ?%elem_of_nil]. unfold _periodic_ping.
      destruct (negb (_joined self) || bool_decide (_active self = ∅));
        [by intros ?%elem_of_nil|].
      destruct (filter _ _) as [|c cs] eqn:Hc; [by intros ?%elem_of_nil|].
      pose proof (random_choice_elem (random ctx) (c :: cs) c) as Hin.
      destruct (random_choice (random ctx) (c :: cs) c) as [target rnd1].
      cbn [fst] in Hin. specialize (Hin ltac:(done)). rewrite <- Hc in Hin.
      apply list_elem_of_filter in Hin as [Hne _].
      repeat match goal with
        | |- context [let '(_, _) := ?e in _] => destruct e
        end. cbn [snd send_dests omap].
      intros ->%list_elem_of_singleton. by left.
Qed.

Lemma no_send_to_self_witness :
  deliver (probing_a 1) (TimerFired "ping_c" (ctx_at 20))
  = Some (on_timer (probing_a 1) "ping_c" (ctx_at 20))
  ∧ "b" ∈ send_dests (on_timer (probing_a 1) "ping_c" (ctx_at 20)).2
  ∧ ("b" ≠ _id (probing_a 1)
     ∨ ∃ msg ctx, TimerFired "ping_c" (ctx_at 20) = NetMessage msg "b" ctx
                  ∧ msg_type msg = "PING").
Proof.
  assert (H1 : deliver (probing_a 1) (TimerFired "ping_c" (ctx_at 20))
               = Some (on_timer (probing_a 1) "ping_c" (ctx_at 20)))
    by reflexivity.
  assert (H2 : "b" ∈ send_dests (on_timer (probing_a 1) "ping_c" (ctx_at 20)).2)
    by (vm_compute; left).
  exact (conj H1 (conj H2 (no_send_to_self (probing_a 1) _ _ "b" H1 H2))).
Defined.

(** ** Iteration order and generations *)

(** X18. Neither the merge nor [_get_active_members] depends on the order
    in which the items of a dict are visited: running the two merge loops
    over the items of the samples in any order, and the loop of
    [_get_active_members] over the items of the added register in any
    order, gives the state and the set computed here. *)
Theorem iteration_order_is_irrelevant (self : GroupMember)
    (added_sample removed_sample : gmap string SampleEntry) (time_value : Z)
    (added_items removed_items : list (string * SampleEntry))
    (register_items : list (string * Tag)) :
  added_items ≡ₚ map_to_list added_sample →
  removed_items ≡ₚ map_to_list removed_sample →
  register_items ≡ₚ map_to_list (_added_members self) →
  (let self1 := set_time self (Z.max (_time self) time_value) in
   let self2 := loop_in_order merge_added_item self1 added_items in
   let self3 := loop_in_order merge_removed_item self2 removed_items in
   set_active self3 (_get_active_members self3)
   = _merge_crdt_sample self added_sample removed_sample time_value)
  ∧ active_in_order (_removed_members self) register_items
    = _get_active_members self.
Proof.
  intros Ha Hr Hreg. split.
  - by apply merge_any_iteration_order.
  - by apply get_active_any_iteration_order.
Qed.

Lemma iteration_order_is_irrelevant_witness :
  reverse (map_to_list sample_bc) ≡ₚ map_to_list sample_bc
  ∧ reverse (map_to_list (sample1 "d" 4 4)) ≡ₚ map_to_list (sample1 "d" 4 4)
  ∧ reverse (map_to_list (_added_members (probing_a 1)))
    ≡ₚ map_to_list (_added_members (probing_a 1))
  ∧ active_in_order (_removed_members (probing_a 1))
      (reverse (map_to_list (_added_members (probing_a 1))))
    = _get_active_members (probing_a 1).
Proof.
  assert (H1 : reverse (map_to_list sample_bc) ≡ₚ map_to_list sample_bc)
    by apply reverse_Permutation.
  assert (H2 : reverse (map_to_list (sample1 "d" 4 4))
               ≡ₚ map_to_list (sample1 "d" 4 4))
    by apply reverse_Permutation.
  assert (H3 : reverse (map_to_list (_added_members (probing_a 1)))
               ≡ₚ map_to_list (_added_members (probing_a 1)))
    by apply reverse_Permutation.
  exact (conj H1 (conj H2 (conj H3 (proj2
    (iteration_order_is_irrelevant (probing_a 1) sample_bc (sample1 "d" 4 4) 9
       _ _ _ H1 H2 H3))))).
Defined.

(** X19. In every reachable state no entry of the added or of the removed
    register has a negative generation: a merge accepts an entry only
    above the generation it reads, which is at least [-1], and the marks
    stamp positive generations. *)
Theorem register_generations_nonneg (proc_id : string) (self : GroupMember)
    (p : string) (entry : Tag) :
  reachable proc_id self →
  _added_members self !! p = Some entry ∨ _removed_members self !! p = Some entry →
  0 ≤ entry.2.
Proof.
  intros [_ Hnn]%reachable_gens_nonneg Hp.
  destruct (Hnn p) as [Ha Hr]. unfold key_state in Ha, Hr. cbn [fst snd] in *.
  destruct Hp as [Hp|Hp]; [by rewrite Hp in Ha|by rewrite Hp in Hr].
Qed.

Lemma register_generations_nonneg_witness :
  reachable "a" joined_a
  ∧ (_added_members joined_a !! "a" = Some (1%Q, 1)
     ∨ _removed_members joined_a !! "a" = Some (1%Q, 1))
  ∧ 0 ≤ (1%Q, 1).2.
Proof.
  assert (H1 : reachable "a" joined_a).
  { exists [LocalMessage (JOIN "a") (ctx_at 1)]. vm_compute. reflexivity. }
  assert (H2 : _added_members joined_a !! "a" = Some (1%Q, 1)
               ∨ _removed_members joined_a !! "a" = Some (1%Q, 1))
    by (left; reflexivity).
  exact (conj H1 (conj H2
    (register_generations_nonneg "a" joined_a "a" (1%Q, 1) H1 H2))).
Defined.
